(** * The browser pool of packages/puppeteer/src/pool.ts

    A shallow embedding of [createPool] and of the page-leasing methods it
    attaches to the pool ([acquirePage], [page.release], the "popup"
    listener, [callPage], [getPageContent]), followed by the properties the
    specification states about them.

    pool.ts is glue around three collaborators: the generic-pool package,
    puppeteer's [Browser]/[BrowserContext]/[Page] objects and the
    [setupPageRules] function of ./pageRules.  Every call pool.ts makes to
    one of them is recorded, in order, in the [trace] of the [World]; what
    the collaborator answers (a value, a rejection, popup events emitted
    while the call is pending) is given by an environment [Env], over which
    the theorems quantify. *)

From Stdlib Require Import ZArith List Bool Lia.
From Stdlib Require String.
From stdpp Require Import base list.
Import ListNotations.

(** ** Handles and options *)

(** Object identities of the collaborators' objects. *)
Definition Browser := nat.
Definition BrowserContext := nat.
Definition Page := nat.

(** Modelled from the spec: [PageRuleOptions] is declared in ./pageRules,
    which is not among the sources; the spec calls it a "config object
    forwarded to the Rule Application Hook".  pool.ts only tests that it is
    set and passes it on, so it is an opaque tag here. *)
Definition PageRuleOptions := nat.

(** A property of an options object: not written in the object literal,
    written with the value [undefined], or written with a value. *)
Inductive JsProp (T : Type) : Type :=
| Absent
| Undefined
| Val (v : T).
Arguments Absent {T}.
Arguments Undefined {T}.
Arguments Val {T} v.

(** One property of [{ ...base, ...over }]: an own property of [over], even
    one holding [undefined], replaces the one of [base]. *)
Definition spread {T : Type} (base over : JsProp T) : JsProp T :=
  match over with
  | Absent => base
  | _ => over
  end.

(** Reading [o.prop]: [None] is [undefined]. *)
Definition read {T : Type} (p : JsProp T) : option T :=
  match p with
  | Val v => Some v
  | _ => None
  end.

(** [number]s are taken to be integers (milliseconds and counts). *)
Module PoolOptions.
Record t := Build {
  autostart : JsProp bool;
  min : JsProp Z;
  max : JsProp Z;
  timeout : JsProp Z;
  testOnBorrow : JsProp bool
}.
End PoolOptions.

Module PageOptions.
Record t := Build {
  incognito : JsProp bool;
  applyRulesToPopups : JsProp bool;
  ruleOptions : JsProp PageRuleOptions
}.
End PageOptions.

Definition defaultPoolOptions : PoolOptions.t :=
  {| PoolOptions.autostart := Val true;
     PoolOptions.min := Val 0%Z;
     PoolOptions.max := Val 5%Z;
     PoolOptions.testOnBorrow := Val true;
     PoolOptions.timeout := Val 30000%Z |}.

Definition defaultPageOptions : PageOptions.t :=
  {| PageOptions.incognito := Val true;
     PageOptions.applyRulesToPopups := Val true;
     PageOptions.ruleOptions := Absent |}.

(** [{ ...defaultPoolOptions, ...options }]; spreading [undefined] adds
    nothing. *)
Definition spreadPoolOptions (base : PoolOptions.t) (options : option PoolOptions.t)
  : PoolOptions.t :=
  match options with
  | None => base
  | Some o =>
      {| PoolOptions.autostart := spread (PoolOptions.autostart base) (PoolOptions.autostart o);
         PoolOptions.min := spread (PoolOptions.min base) (PoolOptions.min o);
         PoolOptions.max := spread (PoolOptions.max base) (PoolOptions.max o);
         PoolOptions.timeout := spread (PoolOptions.timeout base) (PoolOptions.timeout o);
         PoolOptions.testOnBorrow :=
           spread (PoolOptions.testOnBorrow base) (PoolOptions.testOnBorrow o) |}
  end.

Definition spreadPageOptions (base : PageOptions.t) (options : option PageOptions.t)
  : PageOptions.t :=
  match options with
  | None => base
  | Some o =>
      {| PageOptions.incognito := spread (PageOptions.incognito base) (PageOptions.incognito o);
         PageOptions.applyRulesToPopups :=
           spread (PageOptions.applyRulesToPopups base) (PageOptions.applyRulesToPopups o);
         PageOptions.ruleOptions :=
           spread (PageOptions.ruleOptions base) (PageOptions.ruleOptions o) |}
  end.

(** [const opts = { ...defaultPoolOptions, ...options }] of [createPool]:
    the object handed to [genericPool.createPool] and read by the factory. *)
Definition createPool_opts (options : option PoolOptions.t) : PoolOptions.t :=
  spreadPoolOptions defaultPoolOptions options.

(** [const opts = { ...defaultPageOptions, ...options }] of [acquirePage]. *)
Definition acquirePage_opts (options : option PageOptions.t) : PageOptions.t :=
  spreadPageOptions defaultPageOptions options.



(** ** Collaborator calls, outcomes and the world *)

(** What a page is created on: [(ingocnito ?? browser).newPage()]. *)
Inductive Owner :=
| OnBrowser (b : Browser)
| OnContext (c : BrowserContext).

Inductive Call :=
| CreateBrowser                                  (* createBrowser() *)
| DateNow                                        (* Date.now() *)
| BrowserClose (b : Browser)                     (* browser.close() *)
| PoolAcquire                                    (* pool.acquire() *)
| CreateIncognitoBrowserContext (b : Browser)    (* browser.createIncognitoBrowserContext() *)
| NewPage (o : Owner)                            (* (ingocnito ?? browser).newPage() *)
| PageClose (p : Page)                           (* p.close() *)
| ContextClose (c : BrowserContext)              (* ingocnito.close() *)
| PoolRelease (b : Browser)                      (* pool.release(browser) *)
| SetupPageRules (p : Page) (o : PageRuleOptions) (* setupPageRules(p, options) *)
| PageGoto (p : Page) (url : String.string)      (* page.goto(url) *)
| PageContent (p : Page).                        (* page.content() *)

(** pool.ts has no [throw] statement: every error it can end with is the
    rejection of a collaborator call. *)
Inductive Error :=
| Rejected (c : Call).

(** How a computation ends.  [OutOfFuel] stands for a computation that has
    not ended within the step budget given to the [for ... of] loop of
    [page.release], whose array can grow while it runs. *)
Inductive Outcome (A : Type) : Type :=
| Ok (a : A)
| Throw (e : Error)
| OutOfFuel.
Arguments Ok {A} a.
Arguments Throw {A} e.
Arguments OutOfFuel {A}.

(** The closure of the listener of lines 116-121: the [pages] array it
    pushes to and the [opts] it reads. *)
Record PopupListener := {
  l_pages : nat;
  l_opts : PageOptions.t
}.

(** The state pool.ts reads and writes: the calls made so far, the arrays
    allocated by [const pages = [page]] (an array is shared by reference
    between [page.release] and the popup listener, so it lives in a store and
    is named by its index), and the listeners registered with
    [page.on("popup", ...)], oldest first. *)
Record World := {
  trace : list Call;
  heap : list (list Page);
  listeners : list (Page * PopupListener)
}.

Definition initial_world : World :=
  {| trace := []; heap := []; listeners := [] |}.

(** The answers of the collaborators, as functions of the calls made before.
    [rejects h c]: the call [c], made after [h], throws or rejects.
    [popups h c]: the [(opener, popup)] events puppeteer emits while the
    awaited call [c] is pending.  The remaining fields give the value a
    call resolves to. *)
Record Env := {
  rejects : list Call -> Call -> bool;
  popups : list Call -> Call -> list (Page * Page);
  browser_of : list Call -> Browser;
  context_of : list Call -> BrowserContext;
  page_of : list Call -> Page;
  clock : list Call -> Z;
  content_of : list Call -> String.string
}.

(** The leased page: the primary [Page] with the closure of the [release]
    method attached to it (lines 105-111), that is the variables [pages],
    [ingocnito] and [browser] of [acquirePage]. *)
Record AcquiredPage := {
  self : Page;
  pages : nat;
  ingocnito : option BrowserContext;
  browser : Browser
}.

(** The value [Date.now() - t < opts.timeout] closes over. *)
Record PoolBrowser := {
  pb_browser : Browser;
  poolIsValid_t : Z
}.

(** ** Computations *)

Definition M (A : Type) : Type := World -> World * Outcome A.

Definition ret {A : Type} (a : A) : M A := fun w => (w, Ok a).

Definition bind {A B : Type} (m : M A) (k : A -> M B) : M B :=
  fun w =>
    match m w with
    | (w1, Ok a) => k a w1
    | (w1, Throw e) => (w1, Throw e)
    | (w1, OutOfFuel) => (w1, OutOfFuel)
    end.

Notation "x <- m ;; k" := (bind m (fun x => k))
  (at level 100, m at next level, right associativity).
Notation "m ;; k" := (bind m (fun _ => k))
  (at level 100, right associativity).

(** [try { body } finally { fin }]: [fin] runs once [body] has ended, either
    way; when [fin] ends normally the outcome is that of [body], and when
    [fin] throws its error replaces it. *)
Definition try_finally {A : Type} (body : M A) (fin : M unit) : M A :=
  fun w =>
    match body w with
    | (w1, OutOfFuel) => (w1, OutOfFuel)
    | (w1, r) =>
        match fin w1 with
        | (w2, Ok _) => (w2, r)
        | (w2, Throw e) => (w2, Throw e)
        | (w2, OutOfFuel) => (w2, OutOfFuel)
        end
    end.

Definition log (c : Call) (w : World) : World :=
  {| trace := trace w ++ [c]; heap := heap w; listeners := listeners w |}.

(** [pages.push(p)] *)
Definition array_push (a : nat) (p : Page) (w : World) : World :=
  {| trace := trace w;
     heap := alter (fun ps => ps ++ [p]) a (heap w);
     listeners := listeners w |}.

(** [pages.reverse()] reverses the array in place. *)
Definition array_reverse (a : nat) : M unit :=
  fun w =>
    ({| trace := trace w;
        heap := alter (@rev Page) a (heap w);
        listeners := listeners w |}, Ok tt).

(** [const pages = [page]] *)
Definition array_new (ps : list Page) : M nat :=
  fun w =>
    ({| trace := trace w; heap := heap w ++ [ps]; listeners := listeners w |},
     Ok (length (heap w))).

(** [page.on("popup", listener)] *)
Definition page_on (p : Page) (l : PopupListener) : M unit :=
  fun w =>
    ({| trace := trace w; heap := heap w; listeners := listeners w ++ [(p, l)] |},
     Ok tt).

Fixpoint listeners_on (opener : Page) (ls : list (Page * PopupListener))
  : list PopupListener :=
  match ls with
  | [] => []
  | (q, l) :: ls' =>
      if Nat.eqb q opener then l :: listeners_on opener ls'
      else listeners_on opener ls'
  end.

Section Operations.

Variable env : Env.

Definition settle (h : list Call) (c : Call) : Outcome unit :=
  if rejects env h c then Throw (Rejected c) else Ok tt.

(** A call that is not awaited. *)
Definition call (c : Call) : M unit :=
  fun w => (log c w, settle (trace w) c).

(** The body of the popup listener (lines 116-121).  It is an [async]
    function without [await], so it runs to its end when the event is
    emitted; an exception of [setupPageRules] rejects the promise the
    listener returns, which nothing observes. *)
Definition popup_listener (l : PopupListener) (p : Page) (w : World) : World :=
  let w1 := array_push (l_pages l) p w in
  match read (PageOptions.applyRulesToPopups (l_opts l)),
        read (PageOptions.ruleOptions (l_opts l)) with
  | Some true, Some ro => fst (call (SetupPageRules p ro) w1)
  | _, _ => w1
  end.

(** The listeners [ls] run one after the other on the popup [p]. *)
Definition dispatch (ls : list PopupListener) (p : Page) (w : World) : World :=
  fold_left (fun w' l => popup_listener l p w') ls w.

(** [opener.emit("popup", p)]: the listeners registered on [opener] run in
    registration order. *)
Definition emit_popup (opener p : Page) (w : World) : World :=
  dispatch (listeners_on opener (listeners w)) p w.

(** The events emitted while a call is pending, dispatched in order. *)
Definition deliver (evs : list (Page * Page)) (w : World) : World :=
  fold_left (fun w' ev => emit_popup (fst ev) (snd ev) w') evs w.

(** [await c]: the call is made, the events emitted while it is pending
    are dispatched, then the call settles. *)
Definition await (c : Call) : M unit :=
  fun w => (deliver (popups env (trace w) c) (log c w), settle (trace w) c).

Definition await_val {A : Type} (c : Call) (v : list Call -> A) : M A :=
  fun w =>
    match await c w with
    | (w1, Ok _) => (w1, Ok (v (trace w)))
    | (w1, Throw e) => (w1, Throw e)
    | (w1, OutOfFuel) => (w1, OutOfFuel)
    end.

Definition Date_now : M Z :=
  fun w => (log DateNow w, Ok (clock env (trace w))).

(** *** The factory (lines 72-85) *)

Definition factory_create : M PoolBrowser :=
  b <- await_val CreateBrowser (browser_of env) ;;
  t <- Date_now ;;
  ret {| pb_browser := b; poolIsValid_t := t |}.

(** [browser.poolIsValid = () => Date.now() - t < opts.timeout]; a
    comparison with [undefined] is false. *)
Definition poolIsValid (opts : PoolOptions.t) (pb : PoolBrowser) : M bool :=
  now <- Date_now ;;
  ret (match read (PoolOptions.timeout opts) with
       | Some tm => (now - poolIsValid_t pb <? tm)%Z
       | None => false
       end).

Definition factory_validate (opts : PoolOptions.t) (pb : PoolBrowser) : M bool :=
  poolIsValid opts pb.

Definition factory_destroy (pb : PoolBrowser) : M unit :=
  await (BrowserClose (pb_browser pb)).

(** *** page.release (lines 105-111) *)

(** The [for (const p of pages.reverse())] loop after the reversal: the
    array iterator reads [pages[i]] afresh at every step and stops when [i]
    reaches the current length, so pages pushed while a [close] is pending
    are visited too. *)
Fixpoint close_from (fuel : nat) (a : nat) (i : nat) : M unit :=
  match fuel with
  | O => fun w => (w, OutOfFuel)
  | S fuel' =>
      fun w =>
        match heap w !! a ≫= (fun ps => ps !! i) with
        | None => (w, Ok tt)
        | Some p => (await (PageClose p) ;; close_from fuel' a (S i)) w
        end
  end.

Definition release (fuel : nat) (page : AcquiredPage) : M unit :=
  array_reverse (pages page) ;;
  close_from fuel (pages page) 0 ;;
  match ingocnito page with
  | Some c => await (ContextClose c)
  | None => ret tt
  end ;;
  await (PoolRelease (browser page)).

(** [page.setupRules = options => setupPageRules(page, options)] *)
Definition setupRules (page : AcquiredPage) (options : PageRuleOptions) : M unit :=
  call (SetupPageRules (self page) options).

(** *** pool.acquirePage (lines 95-124) *)

Definition acquirePage (options : option PageOptions.t) : M AcquiredPage :=
  let opts := acquirePage_opts options in
  browser <- await_val PoolAcquire (browser_of env) ;;
  ingocnito <-
    match read (PageOptions.incognito opts) with
    | Some true =>
        c <- await_val (CreateIncognitoBrowserContext browser) (context_of env) ;;
        ret (Some c)
    | _ => ret None
    end ;;
  page <-
    await_val
      (NewPage (match ingocnito with
                | Some c => OnContext c
                | None => OnBrowser browser
                end))
      (page_of env) ;;
  pages <- array_new [page] ;;
  let acquired :=
    {| self := page; pages := pages; ingocnito := ingocnito; browser := browser |} in
  match read (PageOptions.ruleOptions opts) with
  | Some ro => setupRules acquired ro
  | None => ret tt
  end ;;
  page_on page {| l_pages := pages; l_opts := opts |} ;;
  ret acquired.

(** *** pool.callPage (lines 126-133) and pool.getPageContent (135-140) *)

Definition callPage {T : Type} (fuel : nat) (options : option PageOptions.t)
    (handler : AcquiredPage -> M T) : M T :=
  page <- acquirePage options ;;
  try_finally (handler page) (release fuel page).

Definition getPageContent (fuel : nat) (options : PageOptions.t) (url : String.string)
  : M String.string :=
  callPage fuel (Some options)
    (fun page =>
       await (PageGoto (self page) url) ;;
       await_val (PageContent (self page)) (content_of env)).

End Operations.

Arguments settle env h c : simpl never.

(** ** Vocabulary of the statements *)

Definition is_teardown (c : Call) : bool :=
  match c with
  | PageClose _ | ContextClose _ | PoolRelease _ => true
  | _ => false
  end.

Definition is_acquisition (c : Call) : bool :=
  match c with
  | PoolAcquire | CreateIncognitoBrowserContext _ | NewPage _ => true
  | _ => false
  end.

(** No popup event is emitted while a call selected by [sel] is pending. *)
Definition quiet (env : Env) (sel : Call -> bool) : Prop :=
  forall h c, sel c = true -> popups env h c = [].

(** No call selected by [sel] rejects. *)
Definition never_rejects (env : Env) (sel : Call -> bool) : Prop :=
  forall h c, sel c = true -> rejects env h c = false.

Definition context_close (page : AcquiredPage) : list Call :=
  match ingocnito page with
  | Some c => [ContextClose c]
  | None => []
  end.

(** The teardown of a lease whose pages are closed in the order [ps]. *)
Definition teardown_calls (page : AcquiredPage) (ps : list Page) : list Call :=
  map PageClose ps ++ context_close page ++ [PoolRelease (browser page)].

(** Making the calls [cs] one after the other after the history [h], up to
    and including the first one that rejects: the history reached and the
    outcome. *)
Fixpoint attempt (env : Env) (h : list Call) (cs : list Call)
  : list Call * Outcome unit :=
  match cs with
  | [] => (h, Ok tt)
  | c :: cs' =>
      if rejects env h c then (h ++ [c], Throw (Rejected c))
      else attempt env (h ++ [c]) cs'
  end.

(** The popups [ps], reported one after the other on the page [opener]. *)
Definition emit_popups (env : Env) (opener : Page) (ps : list Page) (w : World) : World :=
  fold_left (fun w' p => emit_popup env opener p w') ps w.

(** Every registered listener pushes to an array that exists. *)
Definition listeners_allocated (w : World) : Prop :=
  Forall (fun ql => l_pages (snd ql) < length (heap w)) (listeners w).

(** How often the listeners [ls] push to the array [a] when they run once. *)
Definition pushes (a : nat) (ls : list PopupListener) : nat :=
  length (List.filter (fun l => Nat.eqb (l_pages l) a) ls).

(** The listeners that push to the array [a]. *)
Definition listeners_of_array (a : nat) (ls : list (Page * PopupListener))
  : list (Page * PopupListener) :=
  List.filter (fun ql => Nat.eqb (l_pages (snd ql)) a) ls.

(** The popup listener of the lease [page] is the only listener that pushes
    to the array of the lease, and it is registered on the primary page. *)
Definition registered_once (page : AcquiredPage) (opts : PageOptions.t) (w : World) : Prop :=
  listeners_of_array (pages page) (listeners w) =
  [(self page, {| l_pages := pages page; l_opts := opts |})].

(** [opts.incognito ? ... : null] *)
Definition wants_incognito (opts : PageOptions.t) : bool :=
  match read (PageOptions.incognito opts) with
  | Some true => true
  | _ => false
  end.

(** [opts.applyRulesToPopups && opts.ruleOptions] *)
Definition popup_rules (opts : PageOptions.t) : option PageRuleOptions :=
  match read (PageOptions.applyRulesToPopups opts), read (PageOptions.ruleOptions opts) with
  | Some true, Some ro => Some ro
  | _, _ => None
  end.

(** The calls of a successful [acquirePage] that returned [page]. *)
Definition acquisition_calls (opts : PageOptions.t) (page : AcquiredPage) : list Call :=
  [PoolAcquire] ++
  match ingocnito page with
  | Some c => [CreateIncognitoBrowserContext (browser page); NewPage (OnContext c)]
  | None => [NewPage (OnBrowser (browser page))]
  end ++
  match read (PageOptions.ruleOptions opts) with
  | Some ro => [SetupPageRules (self page) ro]
  | None => []
  end.

(** ** Environments used to run the model *)

(** Nothing rejects, no popup opens unasked, every call returns a new
    identity. *)
Definition calm : Env :=
  {| rejects := fun _ _ => false;
     popups := fun _ _ => [];
     browser_of := fun h => length h;
     context_of := fun h => length h;
     page_of := fun h => length h;
     clock := fun h => (1000 * Z.of_nat (length h))%Z;
     content_of := fun _ => String.EmptyString |}.

(** As [calm], but closing the page [bad] rejects. *)
Definition flaky (bad : Page) : Env :=
  {| rejects := fun _ c => match c with PageClose p => Nat.eqb p bad | _ => false end;
     popups := fun _ _ => [];
     browser_of := fun h => length h;
     context_of := fun h => length h;
     page_of := fun h => length h;
     clock := fun h => (1000 * Z.of_nat (length h))%Z;
     content_of := fun _ => String.EmptyString |}.

Definition closed_before (p : Page) (h : list Call) : bool :=
  existsb (fun c => match c with PageClose q => Nat.eqb q p | _ => false end) h.

(** As [calm], but a page can be closed only once, as with puppeteer. *)
Definition strict : Env :=
  {| rejects := fun h c => match c with PageClose p => closed_before p h | _ => false end;
     popups := fun _ _ => [];
     browser_of := fun h => length h;
     context_of := fun h => length h;
     page_of := fun h => length h;
     clock := fun h => (1000 * Z.of_nat (length h))%Z;
     content_of := fun _ => String.EmptyString |}.

(** As [calm], but while the page [during] is being closed, [opener] opens
    the popup [late]. *)
Definition busy (during opener late : Page) : Env :=
  {| rejects := fun _ _ => false;
     popups := fun _ c =>
       match c with
       | PageClose p => if Nat.eqb p during then [(opener, late)] else []
       | _ => []
       end;
     browser_of := fun h => length h;
     context_of := fun h => length h;
     page_of := fun h => length h;
     clock := fun h => (1000 * Z.of_nat (length h))%Z;
     content_of := fun _ => String.EmptyString |}.

(** As [calm], but the calls selected by [bad] reject. *)
Definition rejecting (bad : Call -> bool) : Env :=
  {| rejects := fun _ c => bad c;
     popups := fun _ _ => [];
     browser_of := fun h => length h;
     context_of := fun h => length h;
     page_of := fun h => length h;
     clock := fun h => (1000 * Z.of_nat (length h))%Z;
     content_of := fun _ => String.EmptyString |}.

(** As [calm], but while a [page.goto] is pending the page navigated opens
    the popups [late]. *)
Definition popping (late : list Page) : Env :=
  {| rejects := fun _ _ => false;
     popups := fun _ c =>
       match c with
       | PageGoto p _ => map (fun q => (p, q)) late
       | _ => []
       end;
     browser_of := fun h => length h;
     context_of := fun h => length h;
     page_of := fun h => length h;
     clock := fun h => (1000 * Z.of_nat (length h))%Z;
     content_of := fun _ => String.EmptyString |}.

(** ** Further vocabulary *)

Definition is_navigation (c : Call) : bool :=
  match c with
  | PageGoto _ _ => true
  | _ => false
  end.

Definition is_create_context (c : Call) : bool :=
  match c with
  | CreateIncognitoBrowserContext _ => true
  | _ => false
  end.

(** The calls [acquirePage] sets out to make after the history [h], when no
    popup opens meanwhile: each object is the one the collaborators hand out
    at that point. *)
Definition acquisition_plan (env : Env) (opts : PageOptions.t) (h : list Call)
  : list Call :=
  let b := browser_of env h in
  let pre :=
    if wants_incognito opts then [CreateIncognitoBrowserContext b] else [] in
  let owner :=
    if wants_incognito opts then OnContext (context_of env (h ++ [PoolAcquire]))
    else OnBrowser b in
  [PoolAcquire] ++ pre ++ [NewPage owner] ++
  match read (PageOptions.ruleOptions opts) with
  | Some ro => [SetupPageRules (page_of env (h ++ [PoolAcquire] ++ pre)) ro]
  | None => []
  end.

(** The calls of the popup listener of a lease with options [opts], run on
    the popups [qs]. *)
Definition popup_rule_calls (opts : PageOptions.t) (qs : list Page) : list Call :=
  flat_map (fun q => match popup_rules opts with
                     | Some ro => [SetupPageRules q ro]
                     | None => []
                     end) qs.

(** The popups among the events [evs] that were reported on [opener]. *)
Definition popups_on (opener : Page) (evs : list (Page * Page)) : list Page :=
  map snd (List.filter (fun ev => Nat.eqb (fst ev) opener) evs).

(** Every call of [cs], made after the calls before it, is accepted. *)
Fixpoint accepted (env : Env) (h : list Call) (cs : list Call) : Prop :=
  match cs with
  | [] => True
  | c :: cs' => rejects env h c = false /\ accepted env (h ++ [c]) cs'
  end.

(** Every call of [cs], made after the calls before it, is accepted, and no
    popup is reported while it is pending. *)
Fixpoint undisturbed (env : Env) (h : list Call) (cs : list Call) : Prop :=
  match cs with
  | [] => True
  | c :: cs' =>
      popups env h c = [] /\ rejects env h c = false /\ undisturbed env (h ++ [c]) cs'
  end.

(** ** Sample runs *)

(** Caller options that only set [ruleOptions]. *)
Definition with_rules : option PageOptions.t :=
  Some {| PageOptions.incognito := Absent;
          PageOptions.applyRulesToPopups := Absent;
          PageOptions.ruleOptions := Val 77 |}.


(** The lease [acquirePage(with_rules)] hands out in a new world, when the
    collaborators number their objects as [calm] does: browser 0, context 1,
    primary page 2, array 0. *)
Definition sample_page : AcquiredPage :=
  {| self := 2; pages := 0; ingocnito := Some 1; browser := 0 |}.

(** The world after that acquisition. *)
Definition sample_world (env : Env) : World :=
  fst (acquirePage env with_rules initial_world).

(** ** Basic facts *)

Lemma world_eta (w : World) :
  {| trace := trace w; heap := heap w; listeners := listeners w |} = w.
Proof. destruct w; reflexivity. Qed.

Lemma drop_head_lookup {A : Type} (l : list A) (i : nat) (x : A) (rest : list A) :
  drop i l = x :: rest -> l !! i = Some x /\ drop (S i) l = rest.
Proof.
  intros Hd.
  assert (Hx : l !! i = Some x).
  { replace i with (i + 0) by lia. rewrite <- lookup_drop, Hd. reflexivity. }
  split; [exact Hx|].
  rewrite (drop_S l x i Hx) in Hd. congruence.
Qed.

Lemma drop_nil_lookup {A : Type} (l : list A) (i : nat) :
  drop i l = [] -> l !! i = None.
Proof.
  intros Hd. replace i with (i + 0) by lia. rewrite <- lookup_drop, Hd. reflexivity.
Qed.

(** *** [attempt] *)

Lemma attempt_app env cs1 : forall h cs2,
  attempt env h (cs1 ++ cs2) =
  match attempt env h cs1 with
  | (h1, Ok _) => attempt env h1 cs2
  | r => r
  end.
Proof.
  induction cs1 as [|c cs1 IH]; intros h cs2; simpl; [reflexivity|].
  destruct (rejects env h c); [reflexivity|]. apply IH.
Qed.

Lemma attempt_accepted env cs : forall h,
  (forall h' c, In c cs -> rejects env h' c = false) ->
  attempt env h cs = (h ++ cs, Ok tt).
Proof.
  induction cs as [|c cs IH]; intros h Hacc; simpl.
  - rewrite app_nil_r. reflexivity.
  - rewrite (Hacc h c) by (left; reflexivity).
    rewrite IH by (intros; apply Hacc; right; assumption).
    rewrite <- app_assoc. reflexivity.
Qed.

(** The calls made are a prefix of the calls asked for; the outcome is
    normal exactly when all of them were made and none rejected, and
    otherwise it is the rejection of the last call made. *)
Lemma attempt_shape env cs : forall h,
  exists made,
    fst (attempt env h cs) = h ++ made /\
    ((made = cs /\ snd (attempt env h cs) = Ok tt) \/
     (exists done c rest,
        cs = done ++ c :: rest /\ made = done ++ [c] /\
        rejects env (h ++ done) c = true /\
        snd (attempt env h cs) = Throw (Rejected c))).
Proof.
  induction cs as [|c cs IH]; intros h; simpl.
  - exists []. rewrite app_nil_r. split; [reflexivity|]. left. split; reflexivity.
  - destruct (rejects env h c) eqn:Hr.
    + exists [c]. split; [reflexivity|]. right. exists [], c, cs.
      rewrite app_nil_r. repeat split; assumption.
    + destruct (IH (h ++ [c])) as (made & Hfst & Hcase).
      exists (c :: made). split.
      { rewrite Hfst, <- app_assoc. reflexivity. }
      destruct Hcase as [[-> Hok] | (done & c' & rest & -> & -> & Hrej & Hthrow)].
      * left. split; [reflexivity | exact Hok].
      * right. exists (c :: done), c', rest.
        rewrite <- app_assoc in Hrej. repeat split; assumption.
Qed.


(** *** Awaited calls when no popup opens *)

Lemma await_quiet env sel c w :
  quiet env sel -> sel c = true ->
  await env c w = (log c w, settle env (trace w) c).
Proof.
  intros Hq Hc. unfold await. rewrite (Hq _ _ Hc). reflexivity.
Qed.

Lemma close_from_quiet env a :
  quiet env is_teardown ->
  forall rest fuel i w arr,
    heap w !! a = Some arr ->
    drop i arr = rest ->
    length rest < fuel ->
    close_from env fuel a i w =
    ({| trace := fst (attempt env (trace w) (map PageClose rest));
        heap := heap w; listeners := listeners w |},
     snd (attempt env (trace w) (map PageClose rest))).
Proof.
  intros Hq. induction rest as [|p rest IH]; intros fuel i w arr Hh Hd Hf;
    (destruct fuel as [|fuel]; [simpl in Hf; lia|]); simpl.
  - rewrite Hh. simpl. rewrite (drop_nil_lookup _ _ Hd). rewrite world_eta. reflexivity.
  - destruct (drop_head_lookup _ _ _ _ Hd) as [Hp Hd'].
    rewrite Hh. simpl. rewrite Hp. unfold bind.
    rewrite (await_quiet env is_teardown) by (assumption || reflexivity).
    unfold settle. destruct (rejects env (trace w) (PageClose p)); [reflexivity|].
    simpl in Hf.
    rewrite (IH fuel (S i) (log (PageClose p) w) arr); simpl; try assumption; try lia.
    reflexivity.
Qed.

Lemma await_teardown env c w :
  quiet env is_teardown -> is_teardown c = true ->
  await env c w =
  ({| trace := fst (attempt env (trace w) [c]); heap := heap w; listeners := listeners w |},
   snd (attempt env (trace w) [c])).
Proof.
  intros Hq Hc. rewrite (await_quiet env is_teardown c w Hq Hc).
  unfold settle, log. simpl. destruct (rejects env (trace w) c); reflexivity.
Qed.

(** [page.release], when no popup opens during the teardown: the array is
    reversed in place and the teardown calls are attempted in the order of
    the reversed array. *)
Lemma release_quiet env fuel page w ps :
  quiet env is_teardown ->
  heap w !! pages page = Some ps ->
  length ps < fuel ->
  release env fuel page w =
  ({| trace := fst (attempt env (trace w) (teardown_calls page (rev ps)));
      heap := alter (@rev Page) (pages page) (heap w);
      listeners := listeners w |},
   snd (attempt env (trace w) (teardown_calls page (rev ps)))).
Proof.
  intros Hq Hh Hf. unfold release, teardown_calls.
  unfold bind at 1. unfold array_reverse at 1. unfold bind at 1.
  rewrite (close_from_quiet env (pages page) Hq (rev ps) fuel 0 _ (rev ps));
    [ | cbn [heap]; rewrite list_lookup_alter_eq, Hh; reflexivity
      | reflexivity
      | rewrite length_rev; exact Hf ].
  cbn [trace heap listeners].
  rewrite attempt_app.
  destruct (attempt env (trace w) (map PageClose (rev ps))) as [h1 [[]|e|]] eqn:Ha;
    cbn [fst snd]; try reflexivity.
  rewrite attempt_app.
  unfold bind, context_close. destruct (ingocnito page) as [c|].
  - rewrite await_teardown by (assumption || reflexivity). cbn [trace heap listeners].
    destruct (attempt env h1 [ContextClose c]) as [h2 [[]|e|]] eqn:Hc;
      cbn [fst snd]; try reflexivity.
    rewrite await_teardown by (assumption || reflexivity). reflexivity.
  - unfold ret. cbn [attempt].
    rewrite await_teardown by (assumption || reflexivity). reflexivity.
Qed.

(** *** Popup events *)

Lemma popup_listener_listeners env l p w :
  listeners (popup_listener env l p w) = listeners w.
Proof.
  unfold popup_listener.
  destruct (read (PageOptions.applyRulesToPopups (l_opts l))) as [[]|];
    destruct (read (PageOptions.ruleOptions (l_opts l))); reflexivity.
Qed.

Lemma popup_listener_heap env l p w :
  heap (popup_listener env l p w) = alter (fun ps => ps ++ [p]) (l_pages l) (heap w).
Proof.
  unfold popup_listener.
  destruct (read (PageOptions.applyRulesToPopups (l_opts l))) as [[]|];
    destruct (read (PageOptions.ruleOptions (l_opts l))); reflexivity.
Qed.

Lemma popup_listener_trace env l p w :
  trace (popup_listener env l p w) =
  trace w ++ match popup_rules (l_opts l) with
             | Some ro => [SetupPageRules p ro]
             | None => []
             end.
Proof.
  unfold popup_listener, popup_rules.
  destruct (read (PageOptions.applyRulesToPopups (l_opts l))) as [[]|];
    destruct (read (PageOptions.ruleOptions (l_opts l)));
    simpl; rewrite ?app_nil_r; reflexivity.
Qed.

Lemma dispatch_listeners env p ls : forall w,
  listeners (dispatch env ls p w) = listeners w.
Proof.
  unfold dispatch.
  induction ls as [|l ls IH]; intros w; simpl; [reflexivity|].
  rewrite IH. apply popup_listener_listeners.
Qed.

Lemma dispatch_heap_length env p ls : forall w,
  length (heap (dispatch env ls p w)) = length (heap w).
Proof.
  unfold dispatch.
  induction ls as [|l ls IH]; intros w; simpl; [reflexivity|].
  rewrite IH, popup_listener_heap. apply length_alter.
Qed.

Lemma dispatch_heap env p ls a : forall w,
  heap (dispatch env ls p w) !! a =
  (fun arr => arr ++ replicate (pushes a ls) p) <$> heap w !! a.
Proof.
  unfold dispatch.
  induction ls as [|l ls IH]; intros w; simpl.
  - destruct (heap w !! a); simpl; [rewrite app_nil_r|]; reflexivity.
  - rewrite IH, popup_listener_heap. unfold pushes. simpl.
    destruct (Nat.eqb_spec (l_pages l) a) as [->|Hne].
    + rewrite list_lookup_alter_eq. destruct (heap w !! a); simpl; [|reflexivity].
      rewrite <- app_assoc. reflexivity.
    + rewrite list_lookup_alter_ne by exact Hne. reflexivity.
Qed.

Lemma dispatch_trace env p ls : forall w,
  exists more, trace (dispatch env ls p w) = trace w ++ more.
Proof.
  unfold dispatch.
  induction ls as [|l ls IH]; intros w; simpl.
  - exists []. rewrite app_nil_r. reflexivity.
  - destruct (IH (popup_listener env l p w)) as [more Hm].
    rewrite popup_listener_trace, <- app_assoc in Hm.
    eexists. exact Hm.
Qed.

Lemma dispatch_applies_rules env p ls l ro : forall w,
  In l ls -> popup_rules (l_opts l) = Some ro ->
  In (SetupPageRules p ro) (trace (dispatch env ls p w)).
Proof.
  induction ls as [|l' ls IH]; intros w Hin Hro; [destruct Hin|].
  change (dispatch env (l' :: ls) p w) with (dispatch env ls p (popup_listener env l' p w)).
  destruct Hin as [Heq|Hin].
  - subst l'. destruct (dispatch_trace env p ls (popup_listener env l p w)) as [more Hm].
    rewrite Hm, popup_listener_trace, Hro.
    apply in_or_app. left. apply in_or_app. right. left. reflexivity.
  - apply IH; assumption.
Qed.

Lemma listeners_on_of_array a opener ls :
  pushes a (listeners_on opener ls) =
  length (listeners_on opener (listeners_of_array a ls)).
Proof.
  unfold pushes, listeners_of_array.
  induction ls as [|[q l] ls IH]; simpl; [reflexivity|].
  destruct (Nat.eqb q opener) eqn:Hq; destruct (Nat.eqb (l_pages l) a) eqn:Ha;
    simpl; rewrite ?Hq, ?Ha; simpl; rewrite IH; reflexivity.
Qed.

Lemma listeners_on_In opener l ls :
  In (opener, l) ls -> In l (listeners_on opener ls).
Proof.
  induction ls as [|[q l'] ls IH]; simpl; [tauto|].
  intros [Heq|Hin].
  - inversion Heq; subst. rewrite Nat.eqb_refl. left. reflexivity.
  - destruct (Nat.eqb q opener); [right|]; apply IH; exact Hin.
Qed.

Lemma emit_popup_listeners env opener p w :
  listeners (emit_popup env opener p w) = listeners w.
Proof. apply dispatch_listeners. Qed.

Lemma emit_popup_heap_length env opener p w :
  length (heap (emit_popup env opener p w)) = length (heap w).
Proof. apply dispatch_heap_length. Qed.


(** A popup reported on the primary page is pushed once to the array of the
    lease; a popup reported on another page is not pushed to it. *)
Lemma emit_popup_heap env page opts opener p w :
  registered_once page opts w ->
  heap (emit_popup env opener p w) !! pages page =
  (fun arr => if Nat.eqb (self page) opener then arr ++ [p] else arr)
    <$> heap w !! pages page.
Proof.
  intros Hreg. unfold emit_popup. rewrite dispatch_heap, listeners_on_of_array.
  rewrite Hreg. simpl.
  destruct (Nat.eqb (self page) opener); destruct (heap w !! pages page); simpl;
    rewrite ?app_nil_r; reflexivity.
Qed.

Lemma registered_once_In page opts w :
  registered_once page opts w ->
  In (self page, {| l_pages := pages page; l_opts := opts |}) (listeners w).
Proof.
  unfold registered_once, listeners_of_array. intros Hreg.
  assert (Hin : In (self page, {| l_pages := pages page; l_opts := opts |})
                   (List.filter (fun ql => Nat.eqb (l_pages (snd ql)) (pages page))
                      (listeners w))).
  { rewrite Hreg. left. reflexivity. }
  apply List.filter_In in Hin. tauto.
Qed.

Lemma emit_popup_registered env page opts opener p w :
  registered_once page opts w -> registered_once page opts (emit_popup env opener p w).
Proof. unfold registered_once. rewrite emit_popup_listeners. tauto. Qed.


(** Popups reported on the primary page are appended in the order of their
    arrival. *)
Lemma emit_popups_heap env page opts ps : forall w arr,
  registered_once page opts w ->
  heap w !! pages page = Some arr ->
  heap (emit_popups env (self page) ps w) !! pages page = Some (arr ++ ps).
Proof.
  induction ps as [|p ps IH]; intros w arr Hreg Hh; simpl.
  - rewrite app_nil_r. exact Hh.
  - rewrite (IH _ (arr ++ [p])).
    + rewrite <- app_assoc. reflexivity.
    + apply emit_popup_registered, Hreg.
    + rewrite (emit_popup_heap env page opts) by exact Hreg.
      rewrite Hh, Nat.eqb_refl. reflexivity.
Qed.

Lemma deliver_listeners env evs : forall w, listeners (deliver env evs w) = listeners w.
Proof.
  unfold deliver.
  induction evs as [|ev evs IH]; intros w; simpl; [reflexivity|].
  rewrite IH. apply emit_popup_listeners.
Qed.

Lemma deliver_heap_length env evs : forall w,
  length (heap (deliver env evs w)) = length (heap w).
Proof.
  unfold deliver.
  induction evs as [|ev evs IH]; intros w; simpl; [reflexivity|].
  rewrite IH. apply emit_popup_heap_length.
Qed.

(** *** Inversion of computations that ended normally *)

Lemma bind_Ok {A B : Type} (m : M A) (k : A -> M B) w w2 b :
  bind m k w = (w2, Ok b) ->
  exists a w1, m w = (w1, Ok a) /\ k a w1 = (w2, Ok b).
Proof.
  unfold bind. destruct (m w) as [w1 [a|e|]]; intros H; try discriminate.
  exists a, w1. split; [reflexivity | exact H].
Qed.

Lemma await_val_Ok env {A : Type} c (v : list Call -> A) w w1 x :
  await_val env c v w = (w1, Ok x) ->
  x = v (trace w) /\
  rejects env (trace w) c = false /\
  w1 = deliver env (popups env (trace w) c) (log c w).
Proof.
  unfold await_val, await, settle.
  destruct (rejects env (trace w) c); intros H; inversion H; subst. tauto.
Qed.

(** What an awaited call that resolved leaves behind: the listeners and the
    number of arrays are unchanged, and, when no popup opened meanwhile,
    only the call was added to the trace. *)
Lemma await_val_frame env {A : Type} c (v : list Call -> A) w w1 x :
  await_val env c v w = (w1, Ok x) ->
  x = v (trace w) /\
  listeners w1 = listeners w /\
  length (heap w1) = length (heap w) /\
  (forall sel, quiet env sel -> sel c = true -> w1 = log c w).
Proof.
  intros H. apply await_val_Ok in H. destruct H as (-> & _ & ->).
  split; [reflexivity|]. split; [rewrite deliver_listeners; reflexivity|].
  split; [rewrite deliver_heap_length; reflexivity|].
  intros sel Hq Hc. rewrite (Hq _ _ Hc). reflexivity.
Qed.

Lemma listeners_of_array_fresh a ls :
  Forall (fun ql : Page * PopupListener => l_pages (snd ql) < a) ls ->
  listeners_of_array a ls = [].
Proof.
  unfold listeners_of_array. induction 1 as [|ql ls Hlt _ IH]; simpl; [reflexivity|].
  destruct (Nat.eqb_spec (l_pages (snd ql)) a); [lia | exact IH].
Qed.

Lemma listeners_of_array_app a ls1 ls2 :
  listeners_of_array a (ls1 ++ ls2) = listeners_of_array a ls1 ++ listeners_of_array a ls2.
Proof. apply List.filter_app. Qed.

(** *** [acquirePage] *)

Lemma acquirePage_Ok env options w w1 page :
  acquirePage env options w = (w1, Ok page) ->
  pages page = length (heap w) /\
  heap w1 !! pages page = Some [self page] /\
  listeners w1 =
    listeners w ++ [(self page, {| l_pages := pages page;
                                   l_opts := acquirePage_opts options |})] /\
  wants_incognito (acquirePage_opts options) =
    match ingocnito page with Some _ => true | None => false end /\
  (quiet env is_acquisition ->
   trace w1 = trace w ++ acquisition_calls (acquirePage_opts options) page /\
   heap w1 = heap w ++ [[self page]] /\
   browser page = browser_of env (trace w) /\
   ingocnito page =
     (if wants_incognito (acquirePage_opts options)
      then Some (context_of env (trace w ++ [PoolAcquire])) else None)).
Proof.
  unfold acquirePage. intros H.
  apply bind_Ok in H. destruct H as (b & wa & Ha & H).
  apply await_val_frame in Ha. destruct Ha as (-> & Hla & Hha & Hqa).
  apply bind_Ok in H. destruct H as (ing & wb & Hb & H).
  apply bind_Ok in H. destruct H as (pg & wc & Hc & H).
  apply await_val_frame in Hc. destruct Hc as (-> & Hlc & Hhc & Hqc).
  apply bind_Ok in H. destruct H as (arr & wd & Hd & H).
  unfold array_new in Hd. inversion Hd; subst wd arr; clear Hd.
  apply bind_Ok in H. destruct H as ([] & we & He & H).
  apply bind_Ok in H. destruct H as ([] & wf & Hf & H).
  unfold page_on in Hf. inversion Hf; subst wf; clear Hf.
  unfold ret in H. inversion H; subst w1 page; clear H.
  cbn [self pages ingocnito browser trace heap listeners].
  assert (Hwe : heap we = heap wc ++ [[page_of env (trace wb)]] /\
                listeners we = listeners wc /\
                trace we = trace wc ++
                  match read (PageOptions.ruleOptions (acquirePage_opts options)) with
                  | Some ro => [SetupPageRules (page_of env (trace wb)) ro]
                  | None => []
                  end).
  { destruct (read (PageOptions.ruleOptions (acquirePage_opts options))) as [ro|].
    - unfold setupRules, call in He. inversion He; subst we. simpl. tauto.
    - unfold ret in He. inversion He; subst we. simpl. rewrite app_nil_r. tauto. }
  destruct Hwe as (Hhe & Hle & Hte).
  assert (Hwb : length (heap wb) = length (heap w) /\ listeners wb = listeners w /\
                wants_incognito (acquirePage_opts options) =
                  match ing with Some _ => true | None => false end /\
                (quiet env is_acquisition ->
                 ing = (if wants_incognito (acquirePage_opts options)
                        then Some (context_of env (trace w ++ [PoolAcquire])) else None) /\
                 wb = {| trace := trace w ++ PoolAcquire ::
                                    match ing with
                                    | Some c => [CreateIncognitoBrowserContext
                                                   (browser_of env (trace w))]
                                    | None => []
                                    end;
                         heap := heap w; listeners := listeners w |})).
  { unfold wants_incognito.
    destruct (read (PageOptions.incognito (acquirePage_opts options))) as [[]|].
    - apply bind_Ok in Hb. destruct Hb as (c & wb' & Hb & Hr).
      unfold ret in Hr. inversion Hr; subst wb' ing; clear Hr.
      apply await_val_frame in Hb. destruct Hb as (Hcx & Hlb & Hhb & Hqb).
      split; [congruence|]. split; [congruence|]. split; [reflexivity|].
      intros Hq. rewrite (Hqb _ Hq eq_refl). rewrite Hcx.
      rewrite (Hqa _ Hq eq_refl). unfold log; simpl.
      rewrite <- app_assoc. split; reflexivity.
    - unfold ret in Hb. inversion Hb; subst wb ing. repeat split; try assumption.
      rewrite (Hqa _ H eq_refl). reflexivity.
    - unfold ret in Hb. inversion Hb; subst wb ing. repeat split; try assumption.
      rewrite (Hqa _ H eq_refl). reflexivity. }
  destruct Hwb as (Hhb & Hlb & Hing & Hqb).
  split; [congruence|].
  split.
  { rewrite Hhe. rewrite lookup_app_r by lia.
    replace (length (heap wc) - length (heap wc)) with 0 by lia. reflexivity. }
  split; [congruence|].
  split; [exact Hing|].
  intros Hq. destruct (Hqb Hq) as (Hingv & Hwbv).
  rewrite (Hqc _ Hq eq_refl) in Hte, Hhe.
  unfold log in Hte, Hhe; cbn [trace heap] in Hte, Hhe.
  split; [|split; [|split]].
  - rewrite Hte. unfold acquisition_calls. cbn [self pages ingocnito browser].
    rewrite Hwbv. cbn [trace]. destruct ing as [c|]; simpl;
      rewrite <- ?app_assoc; simpl; reflexivity.
  - rewrite Hhe, Hwbv. reflexivity.
  - reflexivity.
  - exact Hingv.
Qed.

Lemma acquirePage_registered env options w w1 page :
  listeners_allocated w ->
  acquirePage env options w = (w1, Ok page) ->
  registered_once page (acquirePage_opts options) w1.
Proof.
  intros Hall H. destruct (acquirePage_Ok _ _ _ _ _ H) as (Hp & _ & Hl & _).
  unfold registered_once. rewrite Hl, listeners_of_array_app.
  rewrite (listeners_of_array_fresh (pages page) (listeners w))
    by (rewrite Hp; exact Hall).
  simpl. rewrite Nat.eqb_refl. reflexivity.
Qed.

(** ** Configuration *)




(** ** The factory *)

(** C7: [factory.create] returns the browser [createBrowser()] resolved to,
    stamped with the value of [Date.now()] read right after that call
    resolved (and it fails, without reading the clock, when the call
    rejects); for the browser so stamped, [poolIsValid] answers [true]
    exactly when the time elapsed since the stamp is strictly below the
    configured timeout, and [factory.validate] returns what [poolIsValid]
    returns. *)
Theorem poolIsValid_iff_fresh env (opts : PoolOptions.t) w :
  let wa := deliver env (popups env (trace w) CreateBrowser) (log CreateBrowser w) in
  let pb := {| pb_browser := browser_of env (trace w);
               poolIsValid_t := clock env (trace wa) |} in
  (rejects env (trace w) CreateBrowser = false ->
   factory_create env w = (log DateNow wa, Ok pb)) /\
  (rejects env (trace w) CreateBrowser = true ->
   factory_create env w = (wa, Throw (Rejected CreateBrowser))) /\
  (popups env (trace w) CreateBrowser = [] -> trace wa = trace w ++ [CreateBrowser]) /\
  forall w2,
    factory_validate env opts pb w2 = poolIsValid env opts pb w2 /\
    exists v,
      poolIsValid env opts pb w2 = (log DateNow w2, Ok v) /\
      (v = true <->
       exists tm, read (PoolOptions.timeout opts) = Some tm /\
                  (clock env (trace w2) - clock env (trace wa) < tm)%Z).
Proof.
  cbv zeta. split; [|split; [|split]].
  - intros Hacc. unfold factory_create, bind, await_val, await, settle, Date_now, ret.
    rewrite Hacc. reflexivity.
  - intros Hrej. unfold factory_create, bind, await_val, await, settle.
    rewrite Hrej. reflexivity.
  - intros Hq. rewrite Hq. reflexivity.
  - intros w2. split; [reflexivity|].
    unfold poolIsValid, bind, Date_now, ret. cbn [poolIsValid_t].
    eexists. split; [reflexivity|].
    destruct (read (PoolOptions.timeout opts)) as [tm|].
    + rewrite Z.ltb_lt. split.
      * intros Hlt. exists tm. split; [reflexivity | exact Hlt].
      * intros (tm' & [= <-] & Hlt). exact Hlt.
    + split; [discriminate|]. intros (tm' & Hn & _). discriminate.
Qed.

Lemma poolIsValid_iff_fresh_witness :
  rejects calm (trace initial_world) CreateBrowser = false /\
  factory_create calm initial_world =
    ({| trace := [CreateBrowser; DateNow]; heap := []; listeners := [] |},
     Ok {| pb_browser := 0; poolIsValid_t := 1000%Z |}).
Proof.
  split; [reflexivity|].
  exact (proj1 (poolIsValid_iff_fresh calm defaultPoolOptions initial_world) eq_refl).
Defined.

(** ** Acquiring a page *)

(** [acquirePage] cannot run out of steps, and it ends normally when no
    collaborator call rejects. *)
Lemma acquirePage_returns env options w :
  (forall h c, rejects env h c = false) ->
  exists w1 page, acquirePage env options w = (w1, Ok page).
Proof.
  intros Hacc. unfold acquirePage, bind, await_val, await, settle, setupRules, call,
    array_new, page_on, ret.
  rewrite Hacc.
  destruct (read (PageOptions.incognito (acquirePage_opts options))) as [[]|];
    rewrite ?Hacc;
    destruct (read (PageOptions.ruleOptions (acquirePage_opts options)));
    cbn [trace heap listeners log]; unfold settle; rewrite ?Hacc; eauto.
Qed.



(** ** Releasing a page *)

(** *** Calls that are accepted, and calls that run undisturbed *)

Lemma attempt_of_accepted env cs : forall h,
  accepted env h cs -> attempt env h cs = (h ++ cs, Ok tt).
Proof.
  induction cs as [|c cs IH]; intros h Hacc; simpl.
  - rewrite app_nil_r. reflexivity.
  - destruct Hacc as [Hc Hrest]. rewrite Hc, (IH _ Hrest), <- app_assoc. reflexivity.
Qed.

Lemma attempt_rejected_after_accepted env done c rest : forall h,
  accepted env h done ->
  rejects env (h ++ done) c = true ->
  attempt env h (done ++ c :: rest) = (h ++ done ++ [c], Throw (Rejected c)).
Proof.
  induction done as [|d done IH]; intros h Hacc Hrej; simpl.
  - rewrite app_nil_r in Hrej. rewrite Hrej. reflexivity.
  - destruct Hacc as [Hd Hrest]. rewrite Hd.
    rewrite (IH (h ++ [d]) Hrest) by (rewrite <- app_assoc; exact Hrej).
    rewrite <- app_assoc. reflexivity.
Qed.

Lemma undisturbed_app env cs1 : forall h cs2,
  undisturbed env h (cs1 ++ cs2) ->
  undisturbed env h cs1 /\ undisturbed env (h ++ cs1) cs2.
Proof.
  induction cs1 as [|c cs1 IH]; intros h cs2 Hu; simpl in *.
  - rewrite app_nil_r. split; [exact I | exact Hu].
  - destruct Hu as (Hp & Hr & Hrest). destruct (IH _ _ Hrest) as [H1 H2].
    rewrite <- app_assoc in H2. repeat split; assumption.
Qed.

Lemma close_from_run env a :
  forall rest fuel i w arr,
    heap w !! a = Some arr ->
    drop i arr = rest ->
    length rest < fuel ->
    undisturbed env (trace w) (map PageClose rest) ->
    close_from env fuel a i w =
    ({| trace := trace w ++ map PageClose rest;
        heap := heap w; listeners := listeners w |}, Ok tt).
Proof.
  induction rest as [|p rest IH]; intros fuel i w arr Hh Hd Hf Hu;
    (destruct fuel as [|fuel]; [simpl in Hf; lia|]); simpl.
  - rewrite Hh. simpl. rewrite (drop_nil_lookup _ _ Hd).
    rewrite app_nil_r, world_eta. reflexivity.
  - destruct (drop_head_lookup _ _ _ _ Hd) as [Hp Hd'].
    simpl in Hu. destruct Hu as (Hpop & Hrej & Hrest).
    rewrite Hh. simpl. rewrite Hp. unfold bind, await, settle.
    rewrite Hpop, Hrej. cbn [deliver fold_left].
    simpl in Hf.
    rewrite (IH fuel (S i) (log (PageClose p) w) arr); simpl; try assumption; try lia.
    rewrite <- app_assoc. reflexivity.
Qed.

(** [page.release] when each of its teardown calls is accepted and no popup
    is reported while one of them is pending. *)
Lemma release_run env fuel page w ps :
  heap w !! pages page = Some ps ->
  length ps < fuel ->
  undisturbed env (trace w) (teardown_calls page (rev ps)) ->
  release env fuel page w =
  ({| trace := trace w ++ teardown_calls page (rev ps);
      heap := alter (@rev Page) (pages page) (heap w);
      listeners := listeners w |}, Ok tt).
Proof.
  intros Hh Hf Hu. unfold teardown_calls in *.
  apply undisturbed_app in Hu. destruct Hu as [Hu1 Hu2].
  apply undisturbed_app in Hu2. destruct Hu2 as [Hu2 Hu3].
  simpl in Hu3. destruct Hu3 as (Hp3 & Hr3 & _).
  unfold release. unfold bind at 1. unfold array_reverse at 1. unfold bind at 1.
  rewrite (close_from_run env (pages page) (rev ps) fuel 0 _ (rev ps));
    [ | cbn [heap]; rewrite list_lookup_alter_eq, Hh; reflexivity
      | reflexivity
      | rewrite length_rev; exact Hf
      | exact Hu1 ].
  unfold bind, context_close in *. destruct (ingocnito page) as [c|].
  - simpl in Hu2. destruct Hu2 as (Hp2 & Hr2 & _).
    unfold await, settle. cbn [trace log]. rewrite Hp2, Hr2. cbn [deliver fold_left trace log].
    rewrite Hp3, Hr3. cbn [deliver fold_left]. unfold log. cbn [trace heap listeners].
    rewrite <- !app_assoc. reflexivity.
  - unfold ret, await, settle. cbn [trace log]. rewrite app_nil_r in Hp3, Hr3.
    rewrite Hp3, Hr3. cbn [deliver fold_left]. unfold log. cbn [trace heap listeners].
    rewrite <- ?app_assoc. reflexivity.
Qed.

(** Page 12, reported while page 11 is being closed, is pushed to the array
    the loop iterates: the pages registered in the order 2, 10, 11, 12 are
    closed in the order 11, 10, 2, 12, the newest one last. *)
Lemma release_order_with_late_popup :
  let env := busy 11 2 12 in
  let w2 := emit_popups env 2 [10; 11] (sample_world env) in
  acquirePage env with_rules initial_world = (sample_world env, Ok sample_page) /\
  heap w2 !! pages sample_page = Some [2; 10; 11] /\
  exists w3,
    release env 5 sample_page w2 = (w3, Ok tt) /\
    trace w3 = trace w2 ++
      [PageClose 11; SetupPageRules 12 77; PageClose 10; PageClose 2; PageClose 12;
       ContextClose 1; PoolRelease 0] /\
    heap w3 !! pages sample_page = Some [11; 10; 2; 12] /\
    [11; 10; 2; 12] <> rev [2; 10; 11; 12].
Proof.
  cbv zeta. split; [reflexivity|]. split; [reflexivity|].
  eexists. split; [vm_compute; reflexivity|].
  split; [reflexivity|]. split; [reflexivity|]. discriminate.
Qed.

(** C2, as the code has it: when each teardown call of [release] is
    accepted and no popup is reported while one of them is pending, the pages
    tracked by the lease, the primary page and then the popups in the order
    they were reported, are closed newest first (for [A; B; C]: C, B, A);
    then the incognito context is closed if there is one; then the browser
    goes back to the pool. *)
Theorem release_reverse_creation_order env fuel options w w1 page ps :
  listeners_allocated w ->
  acquirePage env options w = (w1, Ok page) ->
  S (length ps) < fuel ->
  let w2 := emit_popups env (self page) ps w1 in
  undisturbed env (trace w2) (teardown_calls page (rev (self page :: ps))) ->
  heap w2 !! pages page = Some (self page :: ps) /\
  exists w3,
    release env fuel page w2 = (w3, Ok tt) /\
    trace w3 =
      trace w2 ++ map PageClose (rev (self page :: ps)) ++
      match ingocnito page with Some c => [ContextClose c] | None => [] end ++
      [PoolRelease (browser page)].
Proof.
  intros Hall H Hf w2 Hu.
  pose proof (acquirePage_registered _ _ _ _ _ Hall H) as Hreg.
  destruct (acquirePage_Ok _ _ _ _ _ H) as (_ & Hh & _).
  assert (Hh2 : heap w2 !! pages page = Some (self page :: ps)).
  { unfold w2. rewrite (emit_popups_heap env page (acquirePage_opts options) ps w1 [self page]);
      [reflexivity | exact Hreg | exact Hh]. }
  split; [exact Hh2|].
  rewrite (release_run env fuel page w2 (self page :: ps) Hh2 Hf Hu).
  eexists. split; reflexivity.
Qed.

Lemma release_reverse_creation_order_witness :
  let w2 := emit_popups strict 2 [10; 11] (sample_world strict) in
  listeners_allocated initial_world /\
  acquirePage strict with_rules initial_world = (sample_world strict, Ok sample_page) /\
  undisturbed strict (trace w2) (teardown_calls sample_page (rev [2; 10; 11])) /\
  exists w3,
    release strict 4 sample_page w2 = (w3, Ok tt) /\
    trace w3 =
      trace w2 ++ [PageClose 11; PageClose 10; PageClose 2; ContextClose 1; PoolRelease 0].
Proof.
  assert (Ha : listeners_allocated initial_world) by constructor.
  assert (Hu : undisturbed strict
                 (trace (emit_popups strict 2 [10; 11] (sample_world strict)))
                 (teardown_calls sample_page (rev [2; 10; 11])))
    by (repeat split; reflexivity).
  cbv zeta. split; [exact Ha|]. split; [reflexivity|]. split; [exact Hu|].
  exact (proj2 (release_reverse_creation_order strict 4 with_rules initial_world
                  (sample_world strict) sample_page [10; 11] Ha eq_refl
                  ltac:(simpl; lia) Hu)).
Defined.







(** With the pages pushed while a [close()] is pending visited by the same
    loop: page 12, reported while page 11 is being closed, is closed after
    the pages that were tracked when [release] started. *)
Example popup_during_release_is_closed_last :
  let w2 := emit_popups (busy 11 2 12) 2 [10; 11] (sample_world (busy 11 2 12)) in
  exists w3,
    release (busy 11 2 12) 5 sample_page w2 = (w3, Ok tt) /\
    trace w3 = trace w2 ++
      [PageClose 11; SetupPageRules 12 77; PageClose 10; PageClose 2; PageClose 12;
       ContextClose 1; PoolRelease 0].
Proof.
  cbv zeta. eexists. split; [vm_compute; reflexivity | reflexivity].
Qed.

(** ** Popups *)


Lemma emit_popups_listeners env opener ps : forall w,
  listeners (emit_popups env opener ps w) = listeners w.
Proof.
  induction ps as [|p ps IH]; intros w; simpl; [reflexivity|].
  rewrite IH. apply emit_popup_listeners.
Qed.





(** ** A lease without incognito context *)



(** ** callPage *)

(** With [close()] of the primary page rejecting, [callPage] ends with that
    rejection: the value 42 the handler returned is lost, and so is the
    error a handler threw. *)
Lemma callPage_loses_handler_outcome :
  let returning : AcquiredPage -> M nat := fun _ => ret 42 in
  let throwing : AcquiredPage -> M nat :=
    fun page w => (w, Throw (Rejected (PageContent (self page)))) in
  returning sample_page (sample_world (flaky 2)) = (sample_world (flaky 2), Ok 42) /\
  throwing sample_page (sample_world (flaky 2)) =
    (sample_world (flaky 2), Throw (Rejected (PageContent 2))) /\
  exists w3,
    callPage (flaky 2) 2 with_rules returning initial_world =
      (w3, Throw (Rejected (PageClose 2))) /\
    callPage (flaky 2) 2 with_rules throwing initial_world =
      (w3, Throw (Rejected (PageClose 2))) /\
    trace w3 =
      [PoolAcquire; CreateIncognitoBrowserContext 0; NewPage (OnContext 1);
       SetupPageRules 2 77; PageClose 2].
Proof.
  cbv zeta. split; [reflexivity|]. split; [reflexivity|].
  eexists. split; [vm_compute; reflexivity|]. split; reflexivity.
Qed.

(** C3, as the code has it: [callPage] acquires a page, runs the handler on
    it and, once the handler has returned or thrown, runs [release] of that
    page once, from the world the handler left.  When every teardown call of
    that [release] is accepted, [callPage] returns what the handler returned
    or throws what it threw; when one of them rejects, [callPage] ends with
    that rejection instead and the outcome of the handler is lost.  Stated
    for a teardown during which no popup is reported. *)
Theorem callPage_release_in_finally env fuel (T : Type) options
    (handler : AcquiredPage -> M T) w w1 page w2 (r : Outcome T) ps :
  acquirePage env options w = (w1, Ok page) ->
  handler page w1 = (w2, r) ->
  r <> OutOfFuel ->
  quiet env is_teardown ->
  heap w2 !! pages page = Some ps ->
  length ps < fuel ->
  let calls := teardown_calls page (rev ps) in
  exists w3 (out : Outcome T) (rel : Outcome unit),
    callPage env fuel options handler w = (w3, out) /\
    release env fuel page w2 = (w3, rel) /\
    (accepted env (trace w2) calls ->
     rel = Ok tt /\ out = r /\ trace w3 = trace w2 ++ calls) /\
    (forall done c rest,
       calls = done ++ c :: rest ->
       accepted env (trace w2) done ->
       rejects env (trace w2 ++ done) c = true ->
       rel = Throw (Rejected c) /\ out = Throw (Rejected c) /\
       trace w3 = trace w2 ++ done ++ [c]) /\
    rel <> OutOfFuel /\ out <> OutOfFuel.
Proof.
  intros Ha Hh Hr Hq Hps Hf calls.
  pose proof (release_quiet env fuel page w2 ps Hq Hps Hf) as Hrel.
  fold calls in Hrel.
  destruct (attempt env (trace w2) calls) as [h3 rel] eqn:Hatt. cbn [fst snd] in Hrel.
  exists {| trace := h3; heap := alter (rev (A:=Page)) (pages page) (heap w2);
            listeners := listeners w2 |},
         (match rel with Ok _ => r | Throw e => Throw e | OutOfFuel => OutOfFuel end), rel.
  assert (Hfuel : rel <> OutOfFuel).
  { destruct (attempt_shape env calls (trace w2))
      as (made & _ & [[_ Hok] | (done & c & rest & _ & _ & _ & Hth)]);
      rewrite Hatt in *; cbn [snd] in *; congruence. }
  split; [|split; [exact Hrel|split; [|split; [|split]]]].
  - unfold callPage, bind. rewrite Ha. unfold try_finally. rewrite Hh, Hrel.
    destruct r; [| |contradiction]; destruct rel as [[]| |]; reflexivity.
  - intros Hacc. rewrite (attempt_of_accepted env calls (trace w2) Hacc) in Hatt.
    injection Hatt as <- <-. repeat split.
  - intros done c rest Hs Hacc Hrej.
    rewrite Hs, (attempt_rejected_after_accepted env done c rest (trace w2) Hacc Hrej)
      in Hatt.
    injection Hatt as <- <-. repeat split.
  - exact Hfuel.
  - destruct rel as [[]|e|]; [exact Hr | discriminate | contradiction].
Qed.

Lemma callPage_release_in_finally_witness :
  let handler : AcquiredPage -> M nat :=
    fun page w => (w, Throw (Rejected (PageContent (self page)))) in
  acquirePage calm with_rules initial_world = (sample_world calm, Ok sample_page) /\
  quiet calm is_teardown /\
  heap (sample_world calm) !! pages sample_page = Some [2] /\
  exists w3 (out : Outcome nat) (rel : Outcome unit),
    callPage calm 2 with_rules handler initial_world = (w3, out) /\
    release calm 2 sample_page (sample_world calm) = (w3, rel) /\
    (accepted calm (trace (sample_world calm)) (teardown_calls sample_page (rev [2])) ->
     rel = Ok tt /\ out = Throw (Rejected (PageContent 2)) /\
     trace w3 = trace (sample_world calm) ++ teardown_calls sample_page (rev [2])).
Proof.
  assert (Hq : quiet calm is_teardown) by (intros h c _; reflexivity).
  cbv zeta. split; [reflexivity|]. split; [exact Hq|]. split; [reflexivity|].
  destruct (callPage_release_in_finally calm 2 nat with_rules
              (fun page w => (w, Throw (Rejected (PageContent (self page)))))
              initial_world (sample_world calm) sample_page (sample_world calm)
              (Throw (Rejected (PageContent 2))) [2]
              eq_refl eq_refl ltac:(discriminate) Hq eq_refl ltac:(simpl; lia))
    as (w3 & out & rel & Hc & Hrel & Hok & _).
  exists w3, out, rel. split; [exact Hc|]. split; [exact Hrel | exact Hok].
Defined.

(** * Further properties of pool.ts *)

(** ** What [acquirePage] does when a call rejects *)

Lemma await_val_quiet env sel {A : Type} c (v : list Call -> A) w :
  quiet env sel -> sel c = true ->
  await_val env c v w =
  (log c w, if rejects env (trace w) c then Throw (Rejected c) else Ok (v (trace w))).
Proof.
  intros Hq Hc. unfold await_val. rewrite (await_quiet env sel c w Hq Hc).
  unfold settle. destruct (rejects env (trace w) c); reflexivity.
Qed.

(** [acquirePage], when no popup opens during its awaits: its calls are
    those of the plan, made up to the first one that rejects, and it ends
    normally exactly when none did. *)
Lemma acquirePage_attempt env options w w1 (r : Outcome AcquiredPage) :
  quiet env is_acquisition ->
  acquirePage env options w = (w1, r) ->
  trace w1 =
    fst (attempt env (trace w) (acquisition_plan env (acquirePage_opts options) (trace w))) /\
  match r with
  | Ok _ =>
      snd (attempt env (trace w)
             (acquisition_plan env (acquirePage_opts options) (trace w))) = Ok tt
  | Throw e =>
      snd (attempt env (trace w)
             (acquisition_plan env (acquirePage_opts options) (trace w))) = Throw e
  | OutOfFuel => False
  end.
Proof.
  intros Hq H. unfold acquirePage in H. unfold acquisition_plan, wants_incognito.
  unfold bind at 1 in H.
  rewrite (await_val_quiet env is_acquisition) in H by first [assumption | reflexivity].
  cbn [attempt app].
  destruct (rejects env (trace w) PoolAcquire);
    [inversion H; subst; split; cbn; reflexivity|].
  destruct (read (PageOptions.incognito (acquirePage_opts options))) as [[]|].
  - unfold bind at 1 in H. unfold bind at 1 in H.
    rewrite (await_val_quiet env is_acquisition) in H by first [assumption | reflexivity].
    cbn [trace log] in H. cbn [attempt app].
    destruct (rejects env (trace w ++ [PoolAcquire]) (CreateIncognitoBrowserContext _));
      [inversion H; subst; split; cbn; reflexivity|].
    unfold ret at 1 in H. unfold bind at 1 in H.
    rewrite (await_val_quiet env is_acquisition) in H by first [assumption | reflexivity].
    cbn [trace log] in H.
    cbn [trace log attempt app].
    destruct (rejects env _ (NewPage _));
      [inversion H; subst; split; cbn; reflexivity|].
    unfold bind, array_new, page_on, ret, setupRules, call, settle in H.
    cbn [trace log heap listeners self] in H.
    destruct (read (PageOptions.ruleOptions (acquirePage_opts options))) as [ro|];
      cbn [attempt app].
    + rewrite <- ?app_assoc in H. rewrite <- ?app_assoc. cbn [app] in H. cbn [app].
      destruct (rejects env _ (SetupPageRules _ ro));
        inversion H; subst; split; cbn; rewrite <- ?app_assoc; reflexivity.
    + inversion H; subst; split; cbn; rewrite <- ?app_assoc; reflexivity.
  - unfold bind at 1 in H. unfold ret at 1 in H. unfold bind at 1 in H.
    rewrite (await_val_quiet env is_acquisition) in H by first [assumption | reflexivity].
    cbn [trace log] in H.
    cbn [trace log attempt app].
    destruct (rejects env _ (NewPage _));
      [inversion H; subst; split; cbn; reflexivity|].
    unfold bind, array_new, page_on, ret, setupRules, call, settle in H.
    cbn [trace log heap listeners self] in H.
    destruct (read (PageOptions.ruleOptions (acquirePage_opts options))) as [ro|];
      cbn [attempt app].
    + rewrite <- ?app_assoc in H. rewrite <- ?app_assoc. cbn [app] in H. cbn [app].
      destruct (rejects env _ (SetupPageRules _ ro));
        inversion H; subst; split; cbn; rewrite <- ?app_assoc; reflexivity.
    + inversion H; subst; split; cbn; rewrite <- ?app_assoc; reflexivity.
  - unfold bind at 1 in H. unfold ret at 1 in H. unfold bind at 1 in H.
    rewrite (await_val_quiet env is_acquisition) in H by first [assumption | reflexivity].
    cbn [trace log] in H.
    cbn [trace log attempt app].
    destruct (rejects env _ (NewPage _));
      [inversion H; subst; split; cbn; reflexivity|].
    unfold bind, array_new, page_on, ret, setupRules, call, settle in H.
    cbn [trace log heap listeners self] in H.
    destruct (read (PageOptions.ruleOptions (acquirePage_opts options))) as [ro|];
      cbn [attempt app].
    + rewrite <- ?app_assoc in H. rewrite <- ?app_assoc. cbn [app] in H. cbn [app].
      destruct (rejects env _ (SetupPageRules _ ro));
        inversion H; subst; split; cbn; rewrite <- ?app_assoc; reflexivity.
    + inversion H; subst; split; cbn; rewrite <- ?app_assoc; reflexivity.
Qed.

Lemma acquisition_plan_calls env opts h c :
  In c (acquisition_plan env opts h) -> is_teardown c = false.
Proof.
  unfold acquisition_plan. rewrite !in_app_iff. intros [Hin | [Hin | [Hin | Hin]]].
  - destruct Hin as [<-|[]]. reflexivity.
  - destruct (wants_incognito opts); [destruct Hin as [<-|[]]; reflexivity | destruct Hin].
  - destruct Hin as [<-|[]]. reflexivity.
  - destruct (read (PageOptions.ruleOptions opts));
      [destruct Hin as [<-|[]]; reflexivity | destruct Hin].
Qed.

Lemma acquisition_plan_head env opts h :
  exists tail, acquisition_plan env opts h = PoolAcquire :: tail.
Proof. unfold acquisition_plan. simpl. eexists. reflexivity. Qed.

(** The shape of an [acquirePage] that ended with an error. *)
Lemma acquirePage_Throw env options w w1 e :
  quiet env is_acquisition ->
  acquirePage env options w = (w1, Throw e) ->
  exists done c rest,
    acquisition_plan env (acquirePage_opts options) (trace w) = done ++ c :: rest /\
    trace w1 = trace w ++ done ++ [c] /\
    e = Rejected c /\
    rejects env (trace w ++ done) c = true.
Proof.
  intros Hq H. destruct (acquirePage_attempt env options w w1 _ Hq H) as [Ht Ho].
  destruct (attempt_shape env (acquisition_plan env (acquirePage_opts options) (trace w))
              (trace w)) as (made & Hfst & [[_ Hok] | (done & c & rest & Hs & -> & Hrej & Hth)]).
  - rewrite Hok in Ho. discriminate.
  - exists done, c, rest. rewrite Hth in Ho. injection Ho as <-.
    rewrite Ht, Hfst. repeat split; assumption.
Qed.

(** X1: when one of the calls of [acquirePage] rejects, the calls before
    it having been accepted (and no popup having opened meanwhile),
    [acquirePage] ends with that rejection without making the calls that
    would follow, and it makes no teardown call; so unless the rejecting call
    is [pool.acquire()] itself, a browser was taken from the pool and is not
    given back. *)
Theorem acquirePage_failure_keeps_browser env options w done c rest :
  quiet env is_acquisition ->
  acquisition_plan env (acquirePage_opts options) (trace w) = done ++ c :: rest ->
  accepted env (trace w) done ->
  rejects env (trace w ++ done) c = true ->
  exists w1,
    acquirePage env options w = (w1, Throw (Rejected c)) /\
    trace w1 = trace w ++ done ++ [c] /\
    (forall c', In c' (done ++ [c]) -> is_teardown c' = false) /\
    (c <> PoolAcquire -> In PoolAcquire done).
Proof.
  intros Hq Hs Hacc Hrej.
  destruct (acquirePage env options w) as [w1 r] eqn:H.
  destruct (acquirePage_attempt env options w w1 r Hq H) as [Ht Ho].
  rewrite Hs, (attempt_rejected_after_accepted env done c rest (trace w) Hacc Hrej)
    in Ht, Ho.
  cbn [fst snd] in Ht, Ho.
  exists w1. split; [|split; [exact Ht|split]].
  - destruct r as [a|e|]; [discriminate Ho | | destruct Ho].
    injection Ho as <-. reflexivity.
  - intros c' Hin. apply (acquisition_plan_calls env (acquirePage_opts options) (trace w)).
    rewrite Hs. apply in_app_or in Hin. apply in_or_app.
    destruct Hin as [Hin | [<- | []]]; [left; exact Hin | right; left; reflexivity].
  - intros Hne.
    destruct (acquisition_plan_head env (acquirePage_opts options) (trace w)) as [tail Hhd].
    rewrite Hhd in Hs. destruct done as [|d done]; simpl in Hs; injection Hs as Hc _.
    + congruence.
    + left. congruence.
Qed.

Lemma acquirePage_failure_keeps_browser_witness :
  let env := rejecting is_create_context in
  quiet env is_acquisition /\
  acquisition_plan env (acquirePage_opts with_rules) (trace initial_world) =
    [PoolAcquire] ++ CreateIncognitoBrowserContext 0 ::
    [NewPage (OnContext 1); SetupPageRules 2 77] /\
  accepted env (trace initial_world) [PoolAcquire] /\
  exists w1,
    acquirePage env with_rules initial_world =
      (w1, Throw (Rejected (CreateIncognitoBrowserContext 0))) /\
    trace w1 = trace initial_world ++ [PoolAcquire] ++ [CreateIncognitoBrowserContext 0].
Proof.
  assert (Hq : quiet (rejecting is_create_context) is_acquisition)
    by (intros h c _; reflexivity).
  assert (Hacc : accepted (rejecting is_create_context) (trace initial_world) [PoolAcquire])
    by (repeat split; reflexivity).
  cbv zeta. split; [exact Hq|]. split; [reflexivity|]. split; [exact Hacc|].
  destruct (acquirePage_failure_keeps_browser (rejecting is_create_context) with_rules
              initial_world [PoolAcquire] (CreateIncognitoBrowserContext 0)
              [NewPage (OnContext 1); SetupPageRules 2 77] Hq eq_refl Hacc eq_refl)
    as (w1 & Ha & Ht & _).
  exists w1. split; [exact Ha | exact Ht].
Defined.

(** ** What [callPage] does around a failure *)

(** X2: when [acquirePage] fails, [callPage] fails with the same error,
    whatever the handler is: the handler is not run, and (no popup having
    opened meanwhile) no teardown call is made. *)
Theorem callPage_acquire_rejected env fuel (T : Type) options
    (handler : AcquiredPage -> M T) w w1 e :
  quiet env is_acquisition ->
  acquirePage env options w = (w1, Throw e) ->
  callPage env fuel options handler w = (w1, Throw e) /\
  exists made,
    trace w1 = trace w ++ made /\
    forall c, In c made -> is_teardown c = false.
Proof.
  intros Hq H. split.
  - unfold callPage, bind. rewrite H. reflexivity.
  - destruct (acquirePage_Throw env options w w1 e Hq H)
      as (done & c & rest & Hs & Ht & _ & _).
    exists (done ++ [c]). split; [exact Ht|].
    intros c' Hin. apply (acquisition_plan_calls env (acquirePage_opts options) (trace w)).
    rewrite Hs. apply in_app_or in Hin. apply in_or_app.
    destruct Hin as [Hin | [<- | []]]; [left; exact Hin | right; left; reflexivity].
Qed.

Lemma callPage_acquire_rejected_witness :
  quiet (rejecting is_create_context) is_acquisition /\
  callPage (rejecting is_create_context) 2 with_rules
    (fun page => ret (self page)) initial_world =
    ({| trace := [PoolAcquire; CreateIncognitoBrowserContext 0];
        heap := []; listeners := [] |},
     Throw (Rejected (CreateIncognitoBrowserContext 0))).
Proof.
  assert (Hq : quiet (rejecting is_create_context) is_acquisition)
    by (intros h c _; reflexivity).
  split; [exact Hq|].
  exact (proj1 (callPage_acquire_rejected (rejecting is_create_context) 2 nat with_rules
                  (fun page => ret (self page)) initial_world
                  {| trace := [PoolAcquire; CreateIncognitoBrowserContext 0];
                     heap := []; listeners := [] |}
                  (Rejected (CreateIncognitoBrowserContext 0)) Hq eq_refl)).
Defined.

(** X3: when [release] rejects in the [finally] block, [callPage] ends
    with the error of [release]: the value the handler returned, or the
    error it threw, is lost.  When no popup opened during the teardown, that
    error is the rejection of one of the teardown calls. *)
Theorem callPage_release_rejected env fuel (T : Type) options
    (handler : AcquiredPage -> M T) w w1 page w2 (r : Outcome T) w3 e :
  acquirePage env options w = (w1, Ok page) ->
  handler page w1 = (w2, r) ->
  r <> OutOfFuel ->
  release env fuel page w2 = (w3, Throw e) ->
  callPage env fuel options handler w = (w3, Throw e) /\
  (forall ps,
     quiet env is_teardown -> heap w2 !! pages page = Some ps -> length ps < fuel ->
     exists c, e = Rejected c /\ In c (teardown_calls page (rev ps))).
Proof.
  intros Ha Hh Hr Hrel. split.
  - unfold callPage, bind. rewrite Ha.
    unfold try_finally. rewrite Hh, Hrel.
    destruct r; [reflexivity | reflexivity | contradiction].
  - intros ps Hq Hps Hf.
    rewrite (release_quiet env fuel page w2 ps Hq Hps Hf) in Hrel.
    injection Hrel as _ Hout.
    destruct (attempt_shape env (teardown_calls page (rev ps)) (trace w2))
      as (made & _ & [[_ Hok] | (done & c & rest & Hs & _ & _ & Hthrow)]).
    + rewrite Hok in Hout. discriminate.
    + rewrite Hthrow in Hout. injection Hout as <-. exists c. split; [reflexivity|].
      rewrite Hs. apply in_or_app. right. left. reflexivity.
Qed.

Lemma callPage_release_rejected_witness :
  let w3 := fst (release (flaky 2) 2 sample_page (sample_world (flaky 2))) in
  acquirePage (flaky 2) with_rules initial_world = (sample_world (flaky 2), Ok sample_page) /\
  release (flaky 2) 2 sample_page (sample_world (flaky 2)) =
    (w3, Throw (Rejected (PageClose 2))) /\
  callPage (flaky 2) 2 with_rules (fun page => ret (self page)) initial_world =
    (w3, Throw (Rejected (PageClose 2))).
Proof.
  cbv zeta. split; [reflexivity|]. split; [reflexivity|].
  exact (proj1 (callPage_release_rejected (flaky 2) 2 nat with_rules
                  (fun page => ret (self page)) initial_world
                  (sample_world (flaky 2)) sample_page (sample_world (flaky 2))
                  (Ok 2) (fst (release (flaky 2) 2 sample_page (sample_world (flaky 2))))
                  (Rejected (PageClose 2))
                  eq_refl eq_refl ltac:(discriminate) eq_refl)).
Defined.

(** ** Popups that open while a call is pending *)

Lemma quiet_weaken env (sel sel' : Call -> bool) :
  quiet env sel -> (forall c, sel' c = true -> sel c = true) -> quiet env sel'.
Proof. intros Hq Hsub h c Hc. apply Hq, Hsub, Hc. Qed.

Lemma deliver_tracks env page opts evs : forall w arr,
  registered_once page opts w ->
  heap w !! pages page = Some arr ->
  heap (deliver env evs w) !! pages page = Some (arr ++ popups_on (self page) evs) /\
  registered_once page opts (deliver env evs w).
Proof.
  unfold deliver, popups_on.
  induction evs as [|[opener q] evs IH]; intros w arr Hreg Hh; simpl.
  - rewrite app_nil_r. split; assumption.
  - pose proof (emit_popup_heap env page opts opener q w Hreg) as He.
    rewrite Hh in He. simpl in He.
    rewrite (Nat.eqb_sym opener (self page)).
    destruct (Nat.eqb (self page) opener).
    + destruct (IH _ _ (emit_popup_registered env page opts opener q w Hreg) He)
        as [Hh' Hreg'].
      split; [|exact Hreg']. rewrite Hh'. simpl. rewrite <- app_assoc. reflexivity.
    + exact (IH _ _ (emit_popup_registered env page opts opener q w Hreg) He).
Qed.

(** X4: the popups the primary page opens while an awaited call is
    pending, a navigation of the handler for instance, are appended to the
    tracked pages of the lease in the order they arrive; popups reported on
    other pages are not, and the listener stays the only one of the lease. *)
Theorem await_tracks_popups env page opts c w arr :
  registered_once page opts w ->
  heap w !! pages page = Some arr ->
  heap (fst (await env c w)) !! pages page =
    Some (arr ++ popups_on (self page) (popups env (trace w) c)) /\
  registered_once page opts (fst (await env c w)).
Proof.
  intros Hreg Hh. unfold await. cbn [fst].
  apply (deliver_tracks env page opts); [exact Hreg | exact Hh].
Qed.

Lemma await_tracks_popups_witness :
  registered_once sample_page (acquirePage_opts with_rules) (sample_world (popping [10; 11])) /\
  heap (sample_world (popping [10; 11])) !! pages sample_page = Some [2] /\
  heap (fst (await (popping [10; 11]) (PageGoto 2 String.EmptyString)
               (sample_world (popping [10; 11])))) !! pages sample_page =
    Some [2; 10; 11].
Proof.
  assert (Hreg : registered_once sample_page (acquirePage_opts with_rules)
                   (sample_world (popping [10; 11]))) by reflexivity.
  split; [exact Hreg|]. split; [reflexivity|].
  exact (proj1 (await_tracks_popups (popping [10; 11]) sample_page
                  (acquirePage_opts with_rules) (PageGoto 2 String.EmptyString)
                  (sample_world (popping [10; 11])) [2] Hreg eq_refl)).
Defined.

(** ** getPageContent *)

Lemma listeners_on_app opener ls1 ls2 :
  listeners_on opener (ls1 ++ ls2) = listeners_on opener ls1 ++ listeners_on opener ls2.
Proof.
  induction ls1 as [|[q l] ls1 IH]; simpl; [reflexivity|].
  destruct (Nat.eqb q opener); simpl; rewrite IH; reflexivity.
Qed.

Lemma deliver_map env opener qs w :
  deliver env (map (fun q => (opener, q)) qs) w = emit_popups env opener qs w.
Proof.
  unfold deliver, emit_popups. revert w.
  induction qs as [|q qs IH]; intros w; simpl; [reflexivity | apply IH].
Qed.

(** When the listener of the lease is the only one on the primary page, the
    popups reported there cause exactly its calls. *)
Lemma emit_popups_only_listener env opener l qs : forall w,
  listeners_on opener (listeners w) = [l] ->
  trace (emit_popups env opener qs w) = trace w ++ popup_rule_calls (l_opts l) qs.
Proof.
  unfold popup_rule_calls.
  induction qs as [|q qs IH]; intros w Hl; simpl.
  - rewrite app_nil_r. reflexivity.
  - rewrite IH by (rewrite emit_popup_listeners; exact Hl).
    unfold emit_popup. rewrite Hl. unfold dispatch. simpl.
    rewrite popup_listener_trace, <- app_assoc. reflexivity.
Qed.

(** [getPageContent] is the handler "navigate, then read the content" run
    between [acquirePage] and [release]. *)
Lemma getPageContent_unfold env fuel o url w w1 page :
  acquirePage env (Some o) w = (w1, Ok page) ->
  getPageContent env fuel o url w =
  try_finally
    (bind (await env (PageGoto (self page) url))
       (fun _ => await_val env (PageContent (self page)) (content_of env)))
    (release env fuel page) w1.
Proof.
  intros H. unfold getPageContent, callPage. unfold bind at 1. rewrite H. reflexivity.
Qed.


(** X5: [getPageContent] on a page that opens popups while it loads.  With
    a new primary page, no rejection, and no popup at any other moment, the
    calls after the acquisition are: [goto] on the primary page; the rule
    calls for the popups, in order of arrival; [content] on the primary page;
    then the teardown, in which the popups are closed newest first before the
    primary page.  The result is the content read at that point. *)
Theorem getPageContent_with_popups env fuel o url w w1 page qs :
  listeners_allocated w ->
  acquirePage env (Some o) w = (w1, Ok page) ->
  listeners_on (self page) (listeners w) = [] ->
  quiet env (fun c => negb (is_navigation c)) ->
  popups env (trace w1) (PageGoto (self page) url) = map (fun q => (self page, q)) qs ->
  (forall h c, rejects env h c = false) ->
  S (length qs) < fuel ->
  let opts := acquirePage_opts (Some o) in
  let loaded :=
    trace w1 ++ [PageGoto (self page) url] ++ popup_rule_calls opts qs in
  exists w3,
    getPageContent env fuel o url w = (w3, Ok (content_of env loaded)) /\
    trace w3 =
      loaded ++ [PageContent (self page)] ++
      map PageClose (rev qs) ++ [PageClose (self page)] ++
      context_close page ++ [PoolRelease (browser page)].
Proof.
  intros Hall Ha Hnew Hq Hpop Hacc Hf opts loaded.
  pose proof (acquirePage_registered _ _ _ _ _ Hall Ha) as Hreg.
  destruct (acquirePage_Ok _ _ _ _ _ Ha) as (_ & Hh & Hl & _).
  rewrite (getPageContent_unfold env fuel o url w w1 page Ha).
  set (wg := emit_popups env (self page) qs (log (PageGoto (self page) url) w1)).
  assert (Hgoto : await env (PageGoto (self page) url) w1 = (wg, Ok tt)).
  { unfold await, settle. rewrite Hpop, Hacc, deliver_map. reflexivity. }
  assert (Hlg : listeners_on (self page) (listeners (log (PageGoto (self page) url) w1)) =
                [{| l_pages := pages page; l_opts := opts |}]).
  { cbn [log listeners]. rewrite Hl, listeners_on_app, Hnew. simpl.
    rewrite Nat.eqb_refl. reflexivity. }
  assert (Htg : trace wg = loaded).
  { unfold wg. rewrite (emit_popups_only_listener env _ _ qs _ Hlg).
    unfold loaded. cbn [log trace l_opts]. rewrite <- app_assoc. reflexivity. }
  assert (Hhg : heap wg !! pages page = Some (self page :: qs)).
  { unfold wg.
    rewrite (emit_popups_heap env page opts qs (log (PageGoto (self page) url) w1)
               [self page]); [reflexivity | exact Hreg | exact Hh]. }
  assert (Hcontent : await_val env (PageContent (self page)) (content_of env) wg =
                     (log (PageContent (self page)) wg, Ok (content_of env loaded))).
  { rewrite (await_val_quiet env (fun c => negb (is_navigation c)))
      by first [assumption | reflexivity].
    rewrite Hacc, Htg. reflexivity. }
  assert (Hqt : quiet env is_teardown).
  { apply (quiet_weaken env _ _ Hq). intros c Hc. destruct c; try discriminate; reflexivity. }
  unfold try_finally, bind. rewrite Hgoto, Hcontent.
  rewrite (release_quiet env fuel page _ (self page :: qs) Hqt)
    by first [exact Hhg | exact Hf].
  rewrite attempt_accepted by (intros; apply Hacc).
  eexists. split; [reflexivity|].
  cbn [fst trace log]. rewrite Htg. unfold teardown_calls. simpl.
  rewrite map_app. simpl. rewrite <- !app_assoc. reflexivity.
Qed.

Lemma getPageContent_with_popups_witness :
  let o := {| PageOptions.incognito := Absent;
              PageOptions.applyRulesToPopups := Absent;
              PageOptions.ruleOptions := Val 77 |} in
  let env := popping [10; 11] in
  listeners_allocated initial_world /\
  acquirePage env (Some o) initial_world = (sample_world env, Ok sample_page) /\
  quiet env (fun c => negb (is_navigation c)) /\
  exists w3,
    getPageContent env 4 o String.EmptyString initial_world = (w3, Ok String.EmptyString) /\
    trace w3 =
      [PoolAcquire; CreateIncognitoBrowserContext 0; NewPage (OnContext 1);
       SetupPageRules 2 77; PageGoto 2 String.EmptyString;
       SetupPageRules 10 77; SetupPageRules 11 77; PageContent 2;
       PageClose 11; PageClose 10; PageClose 2; ContextClose 1; PoolRelease 0].
Proof.
  assert (Ha : listeners_allocated initial_world) by constructor.
  assert (Hq : quiet (popping [10; 11]) (fun c => negb (is_navigation c))).
  { intros h c Hc. destruct c; try reflexivity. discriminate Hc. }
  cbv zeta. split; [exact Ha|]. split; [reflexivity|]. split; [exact Hq|].
  exact (getPageContent_with_popups (popping [10; 11]) 4
           {| PageOptions.incognito := Absent;
              PageOptions.applyRulesToPopups := Absent;
              PageOptions.ruleOptions := Val 77 |}
           String.EmptyString initial_world (sample_world (popping [10; 11]))
           sample_page [10; 11] Ha eq_refl eq_refl Hq eq_refl
           (fun _ _ => eq_refl) ltac:(simpl; lia)).
Defined.



(** ** Options written as [undefined] *)



(** X8: a pool created with [timeout: undefined] has no freshness window:
    [poolIsValid] answers [false] for every browser at every time, whereas
    leaving [timeout] out gives the default window, in which a browser
    younger than 30000 ms is valid. *)
Theorem timeout_undefined_never_valid env (o : PoolOptions.t) pb w :
  (PoolOptions.timeout o = Undefined ->
   snd (poolIsValid env (createPool_opts (Some o)) pb w) = Ok false) /\
  (PoolOptions.timeout o = Absent ->
   (clock env (trace w) - poolIsValid_t pb < 30000)%Z ->
   snd (poolIsValid env (createPool_opts (Some o)) pb w) = Ok true).
Proof.
  unfold poolIsValid, bind, Date_now, ret, createPool_opts. simpl. split.
  - intros ->. reflexivity.
  - intros -> Hlt. simpl. apply Z.ltb_lt in Hlt. rewrite Hlt. reflexivity.
Qed.

Lemma timeout_undefined_never_valid_witness :
  let o := {| PoolOptions.autostart := Absent; PoolOptions.min := Absent;
              PoolOptions.max := Absent; PoolOptions.timeout := Undefined;
              PoolOptions.testOnBorrow := Absent |} in
  PoolOptions.timeout o = Undefined /\
  snd (poolIsValid calm (createPool_opts (Some o))
         {| pb_browser := 0; poolIsValid_t := 1000%Z |} initial_world) = Ok false.
Proof.
  cbv zeta. split; [reflexivity|].
  exact (proj1 (timeout_undefined_never_valid calm
                  {| PoolOptions.autostart := Absent; PoolOptions.min := Absent;
                     PoolOptions.max := Absent; PoolOptions.timeout := Undefined;
                     PoolOptions.testOnBorrow := Absent |}
                  {| pb_browser := 0; poolIsValid_t := 1000%Z |} initial_world)
               eq_refl).
Defined.

(** X9: expiry is final as long as the clock does not go back: a browser
    [poolIsValid] found invalid is found invalid at every later time; and of
    two browsers checked at the same time, the one stamped later is valid
    whenever the one stamped earlier is. *)
Theorem poolIsValid_stays_expired env opts pb w :
  (forall w',
     snd (poolIsValid env opts pb w) = Ok false ->
     (clock env (trace w) <= clock env (trace w'))%Z ->
     snd (poolIsValid env opts pb w') = Ok false) /\
  (forall pb',
     snd (poolIsValid env opts pb w) = Ok true ->
     (poolIsValid_t pb <= poolIsValid_t pb')%Z ->
     snd (poolIsValid env opts pb' w) = Ok true).
Proof.
  unfold poolIsValid, bind, Date_now, ret. simpl.
  destruct (read (PoolOptions.timeout opts)) as [tm|]; split.
  - intros w' H Hle. injection H as H. apply Z.ltb_ge in H.
    f_equal. apply Z.ltb_ge. lia.
  - intros pb' H Hle. injection H as H. apply Z.ltb_lt in H.
    f_equal. apply Z.ltb_lt. lia.
  - intros; reflexivity.
  - intros pb' H; discriminate H.
Qed.

Lemma poolIsValid_stays_expired_witness :
  let pb := {| pb_browser := 0; poolIsValid_t := (-30000)%Z |} in
  let later := log DateNow initial_world in
  snd (poolIsValid calm defaultPoolOptions pb initial_world) = Ok false /\
  (clock calm (trace initial_world) <= clock calm (trace later))%Z /\
  snd (poolIsValid calm defaultPoolOptions pb later) = Ok false.
Proof.
  cbv zeta. split; [reflexivity|]. split; [vm_compute; discriminate|].
  apply (proj1 (poolIsValid_stays_expired calm defaultPoolOptions
                  {| pb_browser := 0; poolIsValid_t := (-30000)%Z |} initial_world)
               (log DateNow initial_world)).
  - reflexivity.
  - vm_compute; discriminate.
Defined.

(** ** Several leases *)

Lemma acquirePage_allocated env options w w1 page :
  listeners_allocated w ->
  acquirePage env options w = (w1, Ok page) ->
  listeners_allocated w1 /\ pages page < length (heap w1).
Proof.
  intros Hall H. destruct (acquirePage_Ok _ _ _ _ _ H) as (Hp & Hh & Hl & _).
  apply lookup_lt_Some in Hh. split; [|exact Hh].
  unfold listeners_allocated in *. rewrite Hl. apply Forall_app. split.
  - eapply Forall_impl; [exact Hall|]. intros ql Hql. simpl in *. lia.
  - constructor; [exact Hh | constructor].
Qed.

(** X10: two leases do not share tracked pages.  After two acquisitions
    with different primary pages, the leases have different arrays; a popup
    of the first primary page is appended to the first array and leaves the
    second as it is; and releasing the second lease closes no page but its
    own and leaves the first array as it is. *)
Theorem leases_are_isolated env o1 o2 w w1 w2 p1 p2 :
  listeners_allocated w ->
  acquirePage env o1 w = (w1, Ok p1) ->
  acquirePage env o2 w1 = (w2, Ok p2) ->
  self p1 <> self p2 ->
  pages p1 <> pages p2 /\
  (forall q,
     heap (emit_popup env (self p1) q w2) !! pages p2 = Some [self p2] /\
     heap (emit_popup env (self p1) q w2) !! pages p1 =
       (fun arr => arr ++ [q]) <$> heap w2 !! pages p1) /\
  (forall fuel w3 r,
     quiet env is_teardown -> 1 < fuel ->
     release env fuel p2 w2 = (w3, r) ->
     heap w3 !! pages p1 = heap w2 !! pages p1 /\
     exists made,
       trace w3 = trace w2 ++ made /\
       forall p, In (PageClose p) made -> p = self p2).
Proof.
  intros Hall H1 H2 Hne.
  destruct (acquirePage_allocated _ _ _ _ _ Hall H1) as [Hall1 Hlt1].
  pose proof (acquirePage_registered _ _ _ _ _ Hall H1) as Hreg1.
  pose proof (acquirePage_registered _ _ _ _ _ Hall1 H2) as Hreg2.
  destruct (acquirePage_Ok _ _ _ _ _ H2) as (Hp2 & Hh2 & Hl2 & _).
  assert (Hpages : pages p1 <> pages p2) by lia.
  assert (Hreg1' : registered_once p1 (acquirePage_opts o1) w2).
  { unfold registered_once in *. rewrite Hl2, listeners_of_array_app, Hreg1.
    simpl. destruct (Nat.eqb_spec (pages p2) (pages p1)); [congruence | reflexivity]. }
  split; [exact Hpages|]. split.
  - intros q. split.
    + rewrite (emit_popup_heap env p2 (acquirePage_opts o2)) by exact Hreg2.
      rewrite Hh2. simpl. destruct (Nat.eqb_spec (self p2) (self p1)); congruence.
    + rewrite (emit_popup_heap env p1 (acquirePage_opts o1)) by exact Hreg1'.
      rewrite Nat.eqb_refl. reflexivity.
  - intros fuel w3 r Hq Hf Hrel.
    rewrite (release_quiet env fuel p2 w2 [self p2] Hq Hh2 Hf) in Hrel.
    injection Hrel as <- _. cbn [heap trace]. split.
    + apply list_lookup_alter_ne. congruence.
    + destruct (attempt_shape env (teardown_calls p2 (rev [self p2])) (trace w2))
        as (made & Hfst & Hcase).
      exists made. split; [exact Hfst|]. intros p Hin.
      assert (Hsub : In (PageClose p) (teardown_calls p2 (rev [self p2]))).
      { destruct Hcase as [[-> _] | (done & c & rest & -> & -> & _)]; [exact Hin|].
        apply in_app_or in Hin. apply in_or_app.
        destruct Hin as [Hin | [<- | []]]; [left; exact Hin | right; left; reflexivity]. }
      unfold teardown_calls, context_close in Hsub. simpl in Hsub.
      destruct Hsub as [Heq | Hsub]; [congruence|].
      apply in_app_or in Hsub. destruct Hsub as [Hsub | [Heq | []]]; [|discriminate Heq].
      destruct (ingocnito p2); [destruct Hsub as [Heq | []]; discriminate Heq | destruct Hsub].
Qed.

Lemma leases_are_isolated_witness :
  let p2 := {| self := 6; pages := 1; ingocnito := Some 5; browser := 4 |} in
  let w2 := fst (acquirePage calm None (sample_world calm)) in
  listeners_allocated initial_world /\
  acquirePage calm with_rules initial_world = (sample_world calm, Ok sample_page) /\
  acquirePage calm None (sample_world calm) = (w2, Ok p2) /\
  self sample_page <> self p2 /\
  pages sample_page <> pages p2 /\
  heap (emit_popup calm 2 10 w2) !! 0 = Some [2; 10] /\
  heap (emit_popup calm 2 10 w2) !! 1 = Some [6].
Proof.
  assert (Ha : listeners_allocated initial_world) by constructor.
  assert (Hne : self sample_page <> 6) by discriminate.
  cbv zeta. split; [exact Ha|]. split; [reflexivity|]. split; [reflexivity|].
  split; [exact Hne|].
  split; [|split; reflexivity].
  exact (proj1 (leases_are_isolated calm with_rules None initial_world (sample_world calm)
                  (fst (acquirePage calm None (sample_world calm))) sample_page
                  {| self := 6; pages := 1; ingocnito := Some 5; browser := 4 |}
                  Ha eq_refl eq_refl Hne)).
Defined.

(** ** The listener after [release] *)

(** X11: [release] does not remove the popup listener.  Whether it ended
    normally or with a rejection, a popup the primary page opens afterwards
    is still appended to the (now reversed) array of the lease and still gets
    the rules. *)
Theorem release_keeps_listener env fuel page opts w ps w1 (r : Outcome unit) :
  quiet env is_teardown ->
  registered_once page opts w ->
  heap w !! pages page = Some ps ->
  length ps < fuel ->
  release env fuel page w = (w1, r) ->
  listeners w1 = listeners w /\
  forall q,
    heap (emit_popup env (self page) q w1) !! pages page = Some (rev ps ++ [q]) /\
    forall ro, popup_rules opts = Some ro ->
               In (SetupPageRules q ro) (trace (emit_popup env (self page) q w1)).
Proof.
  intros Hq Hreg Hh Hf Hrel.
  rewrite (release_quiet env fuel page w ps Hq Hh Hf) in Hrel.
  injection Hrel as <- _. cbn [listeners]. split; [reflexivity|].
  set (w1 := {| trace := _; heap := _; listeners := listeners w |}).
  assert (Hreg1 : registered_once page opts w1) by exact Hreg.
  intros q. split.
  - rewrite (emit_popup_heap env page opts) by exact Hreg1.
    unfold w1. cbn [heap]. rewrite list_lookup_alter_eq, Hh, Nat.eqb_refl. reflexivity.
  - intros ro Hro. unfold emit_popup.
    apply (dispatch_applies_rules env q _ {| l_pages := pages page; l_opts := opts |});
      [|exact Hro].
    apply listeners_on_In, (registered_once_In _ _ _ Hreg1).
Qed.

Lemma release_keeps_listener_witness :
  let w1 := fst (release calm 2 sample_page (sample_world calm)) in
  quiet calm is_teardown /\
  registered_once sample_page (acquirePage_opts with_rules) (sample_world calm) /\
  release calm 2 sample_page (sample_world calm) = (w1, Ok tt) /\
  heap (emit_popup calm 2 10 w1) !! pages sample_page = Some [2; 10] /\
  In (SetupPageRules 10 77) (trace (emit_popup calm 2 10 w1)).
Proof.
  assert (Hq : quiet calm is_teardown) by (intros h c _; reflexivity).
  assert (Hreg : registered_once sample_page (acquirePage_opts with_rules)
                   (sample_world calm)) by reflexivity.
  cbv zeta. split; [exact Hq|]. split; [exact Hreg|]. split; [reflexivity|].
  pose proof (proj2 (release_keeps_listener calm 2 sample_page (acquirePage_opts with_rules)
                       (sample_world calm) [2]
                       (fst (release calm 2 sample_page (sample_world calm))) (Ok tt)
                       Hq Hreg eq_refl ltac:(simpl; lia) eq_refl) 10) as [Hh Hr].
  split; [exact Hh | exact (Hr 77 eq_refl)].
Defined.

(** ** Popups that open during [release] *)

Lemma await_no_popups env c w :
  popups env (trace w) c = [] ->
  await env c w = (log c w, settle env (trace w) c).
Proof. intros Hp. unfold await. rewrite Hp. reflexivity. Qed.

Lemma close_from_undisturbed env a :
  forall rest fuel i w arr,
    heap w !! a = Some arr ->
    drop i arr = rest ->
    length rest < fuel ->
    (forall h p, In p rest -> popups env h (PageClose p) = []) ->
    close_from env fuel a i w =
    ({| trace := fst (attempt env (trace w) (map PageClose rest));
        heap := heap w; listeners := listeners w |},
     snd (attempt env (trace w) (map PageClose rest))).
Proof.
  induction rest as [|p rest IH]; intros fuel i w arr Hh Hd Hf Hq;
    (destruct fuel as [|fuel]; [simpl in Hf; lia|]); simpl.
  - rewrite Hh. simpl. rewrite (drop_nil_lookup _ _ Hd). rewrite world_eta. reflexivity.
  - destruct (drop_head_lookup _ _ _ _ Hd) as [Hp Hd'].
    rewrite Hh. simpl. rewrite Hp. unfold bind.
    rewrite await_no_popups by (apply Hq; left; reflexivity).
    unfold settle. destruct (rejects env (trace w) (PageClose p)); [reflexivity|].
    simpl in Hf.
    rewrite (IH fuel (S i) (log (PageClose p) w) arr); simpl; try assumption; try lia.
    + reflexivity.
    + intros h p' Hin. apply Hq. right. exact Hin.
Qed.

(** X12: pages reported while [release] is closing the newest tracked page
    are closed by the same loop, after every page that was tracked when
    [release] started and in the order they arrived, not newest first; they
    get the rules before that.  Stated for a lease whose listener is the only
    one on its primary page, with no rejection and no popup at another
    moment of the teardown. *)
Theorem release_closes_late_popups_last env fuel page opts w ps p0 rest qs :
  heap w !! pages page = Some ps ->
  rev ps = p0 :: rest ->
  registered_once page opts w ->
  listeners_on (self page) (listeners w) = [{| l_pages := pages page; l_opts := opts |}] ->
  popups env (trace w) (PageClose p0) = map (fun q => (self page, q)) qs ->
  (forall h c, is_teardown c = true -> c <> PageClose p0 -> popups env h c = []) ->
  ~ In p0 (rest ++ qs) ->
  never_rejects env is_teardown ->
  length ps + length qs < fuel ->
  exists w3,
    release env fuel page w = (w3, Ok tt) /\
    trace w3 =
      trace w ++ [PageClose p0] ++ popup_rule_calls opts qs ++
      map PageClose (rest ++ qs) ++ context_close page ++ [PoolRelease (browser page)] /\
    heap w3 !! pages page = Some (p0 :: rest ++ qs).
Proof.
  intros Hh Hrev Hreg Hl Hpop Hquiet Hnotin Hacc Hf.
  assert (Hlen : length ps = S (length rest)).
  { rewrite <- (length_rev ps), Hrev. reflexivity. }
  destruct fuel as [|fuel]; [lia|].
  unfold release. unfold bind at 1. unfold array_reverse at 1. unfold bind at 1.
  set (wr := {| trace := trace w; heap := alter (rev (A:=Page)) (pages page) (heap w);
                listeners := listeners w |}).
  assert (Hhr : heap wr !! pages page = Some (p0 :: rest)).
  { unfold wr. cbn [heap]. rewrite list_lookup_alter_eq, Hh. simpl. rewrite Hrev. reflexivity. }
  set (wg := emit_popups env (self page) qs (log (PageClose p0) wr)).
  assert (Hfirst : await env (PageClose p0) wr = (wg, Ok tt)).
  { unfold await, settle. cbn [trace wr]. rewrite Hpop, deliver_map.
    rewrite (Hacc (trace w) (PageClose p0) eq_refl). reflexivity. }
  assert (Htg : trace wg = trace w ++ [PageClose p0] ++ popup_rule_calls opts qs).
  { unfold wg.
    rewrite (emit_popups_only_listener env (self page)
               {| l_pages := pages page; l_opts := opts |} qs) by exact Hl.
    cbn [log trace wr l_opts]. rewrite <- app_assoc. reflexivity. }
  assert (Hhg : heap wg !! pages page = Some ((p0 :: rest) ++ qs)).
  { unfold wg. apply (emit_popups_heap env page opts); [exact Hreg | exact Hhr]. }
  assert (Hlg : listeners wg = listeners w).
  { unfold wg. rewrite emit_popups_listeners. reflexivity. }
  cbn [close_from]. rewrite Hhr. cbn [mbind option_bind lookup list_lookup].
  unfold bind at 1. rewrite Hfirst.
  rewrite (close_from_undisturbed env (pages page) (rest ++ qs) fuel 1 wg
             ((p0 :: rest) ++ qs) Hhg eq_refl).
  - rewrite attempt_accepted
      by (intros h c Hin; apply Hacc; apply in_map_iff in Hin;
          destruct Hin as (p & <- & _); reflexivity).
    cbn [fst snd].
    assert (Hctx : forall w', (match ingocnito page with
                              | Some c => await env (ContextClose c)
                              | None => ret tt
                              end) w' =
                             ({| trace := trace w' ++ context_close page;
                                 heap := heap w'; listeners := listeners w' |}, Ok tt)).
    { intros w'. unfold context_close. destruct (ingocnito page) as [c|].
      - rewrite await_no_popups by (apply Hquiet; [reflexivity | discriminate]).
        unfold settle. rewrite (Hacc (trace w') (ContextClose c) eq_refl). reflexivity.
      - unfold ret. rewrite app_nil_r, world_eta. reflexivity. }
    unfold bind. rewrite Hctx.
    rewrite await_no_popups by (apply Hquiet; [reflexivity | discriminate]).
    unfold settle. cbn [trace]. rewrite (Hacc _ (PoolRelease (browser page)) eq_refl).
    eexists. split; [reflexivity|]. cbn [log trace heap]. split.
    + rewrite Htg. rewrite <- !app_assoc. reflexivity.
    + exact Hhg.
  - rewrite length_app. lia.
  - intros h p Hin. apply Hquiet; [reflexivity|]. intros Heq. injection Heq as ->.
    exact (Hnotin Hin).
Qed.

Lemma release_closes_late_popups_last_witness :
  let env := busy 11 2 12 in
  let w2 := emit_popups env 2 [10; 11] (sample_world env) in
  heap w2 !! pages sample_page = Some [2; 10; 11] /\
  registered_once sample_page (acquirePage_opts with_rules) w2 /\
  never_rejects env is_teardown /\
  exists w3,
    release env 5 sample_page w2 = (w3, Ok tt) /\
    trace w3 =
      trace w2 ++ [PageClose 11] ++ popup_rule_calls (acquirePage_opts with_rules) [12] ++
      map PageClose ([10; 2] ++ [12]) ++ context_close sample_page ++
      [PoolRelease (browser sample_page)] /\
    heap w3 !! pages sample_page = Some (11 :: [10; 2] ++ [12]).
Proof.
  assert (Hr : never_rejects (busy 11 2 12) is_teardown) by (intros h c _; reflexivity).
  assert (Hreg : registered_once sample_page (acquirePage_opts with_rules)
                   (emit_popups (busy 11 2 12) 2 [10; 11] (sample_world (busy 11 2 12))))
    by reflexivity.
  cbv zeta. split; [reflexivity|]. split; [exact Hreg|]. split; [exact Hr|].
  apply (release_closes_late_popups_last (busy 11 2 12) 5 sample_page
           (acquirePage_opts with_rules)
           (emit_popups (busy 11 2 12) 2 [10; 11] (sample_world (busy 11 2 12)))
           [2; 10; 11] 11 [10; 2] [12] eq_refl eq_refl Hreg eq_refl eq_refl).
  - intros h c Hc Hne. destruct c; try discriminate Hc; try reflexivity.
    simpl. destruct (Nat.eqb_spec p 11) as [->|]; [congruence | reflexivity].
  - simpl. intros [H|[H|[H|[]]]]; discriminate H.
  - exact Hr.
  - simpl. lia.
Defined.
